(** * Synchronisation-and-snapshot pipeline of symmio-analytics

    A shallow embedding of
      - [services/snapshot/snapshot_job.py]: [sync_data], [do_fetch_snapshot],
        [fetch_snapshot];
      - [services/snapshot/hedger_binance_snapshot.py]:
        [prepare_hedger_binance_snapshot];
      - [app/models.py]: [BaseModel.save].

    Conventions.  Block numbers and timestamps (seconds) are [Z].  Python
    exceptions are the [Raised] outcome carrying [str(e)].  Everything the
    program obtains from outside (chain node, indexer, exchange) is an oracle
    of the environment, indexed by the number of calls made so far, so that
    two reads of the chain head may differ.  Monetary amounts ([Float] columns
    and [Decimal] values) are exact rationals [Q]: the rounding of Python
    floats and of the [Decimal] context is outside this model. *)

From Stdlib Require Import ZArith QArith Qabs Qfield Lia Lqa Bool List Ascii.
From Stdlib Require Import String.
From stdpp Require Import base option list strings gmap.

Local Open Scope string_scope.
Local Open Scope list_scope.
Local Open Scope Z_scope.

(** ** Outcomes of Python calls *)

Inductive outcome (A : Type) : Type :=
| Returned (a : A)        (* the call returned [a] *)
| Raised (e : string)     (* the call raised an exception, [str(e) = e] *)
| OutOfFuel.              (* the recursion budget of the model ran out *)
Arguments Returned {A} a.
Arguments Raised {A} e.
Arguments OutOfFuel {A}.

(** Computations over a state [S] that may raise: the state is kept when
    they do, so that what was done before the exception stays visible. *)
Definition Run (S A : Type) : Type := S -> outcome A * S.

Definition ret {S A} (a : A) : Run S A := fun s => (Returned a, s).

Definition raise {S A} (e : string) : Run S A := fun s => (Raised e, s).

Definition bind {S A B} (m : Run S A) (k : A -> Run S B) : Run S B :=
  fun s =>
    match m s with
    | (Returned a, s') => k a s'
    | (Raised e, s') => (Raised e, s')
    | (OutOfFuel, s') => (OutOfFuel, s')
    end.

Notation "m >> k" := (bind m (fun _ => k))
  (at level 60, right associativity).
Notation "'let*' x ':=' m 'in' k" := (bind m (fun x => k))
  (at level 10, x name, m at level 100, k at level 200).

(** ** Error-message inspection ([sync_data], lines 56-57) *)

Module ErrorText.

Definition is_digit (c : ascii) : bool :=
  let n := nat_of_ascii c in (48 <=? n)%nat && (n <=? 57)%nat.

Definition digit_value (c : ascii) : Z := Z.of_nat (nat_of_ascii c) - 48.

(** [needle in hay] on Python strings. *)
Fixpoint contains (needle hay : string) : bool :=
  String.prefix needle hay ||
  match hay with
  | EmptyString => false
  | String _ hay' => contains needle hay'
  end.

(** The text left after [p] when [s] starts with [p]. *)
Fixpoint strip_prefix (p s : string) : option string :=
  match p, s with
  | EmptyString, _ => Some s
  | String a p', String b s' =>
      if Ascii.eqb a b then strip_prefix p' s' else None
  | String _ _, EmptyString => None
  end.

(** [int] of the longest run of decimal digits [s] starts with
    (the greedy group [(\d+)]), accumulated from [acc].  Texts are ASCII:
    the digits are [0] to [9]. *)
Fixpoint int_of_digits (acc : Z) (s : string) : Z :=
  match s with
  | String c s' =>
      if is_digit c then int_of_digits (10 * acc + digit_value c) s' else acc
  | EmptyString => acc
  end.

(** A match of [indexed up to block number (\d+)] anchored at the head
    of [s]; the result is [int(group(1))]. *)
Definition match_here (s : string) : option Z :=
  match strip_prefix "indexed up to block number " s with
  | Some (String c rest) =>
      if is_digit c then Some (int_of_digits 0 (String c rest)) else None
  | _ => None
  end.

(** [re.search(r"indexed up to block number (\d+)", s)]: leftmost match. *)
Fixpoint re_search (s : string) : option Z :=
  match match_here s with
  | Some n => Some n
  | None =>
      match s with
      | EmptyString => None
      | String _ s' => re_search s'
      end
  end.

Definition lag_marker : string := "only indexed up to block number".

End ErrorText.

(** ** The cursor store *)

(** The tenant's [RuntimeConfiguration] row, restricted to the attributes
    [sync_data] and [do_fetch_snapshot] read and write.  The two block
    cursors are nullable. *)
Record RuntimeConfiguration : Type := {
  lastSyncBlock : option Z;
  lastSnapshotBlock : option Z;
  snapshotBlockLag : Z
}.

Definition set_lastSyncBlock (v : Z) (c : RuntimeConfiguration) :=
  {| lastSyncBlock := Some v;
     lastSnapshotBlock := lastSnapshotBlock c;
     snapshotBlockLag := snapshotBlockLag c |}.

Definition set_lastSnapshotBlock (v : Z) (c : RuntimeConfiguration) :=
  {| lastSyncBlock := lastSyncBlock c;
     lastSnapshotBlock := Some v;
     snapshotBlockLag := snapshotBlockLag c |}.

Definition set_snapshotBlockLag (v : Z) (c : RuntimeConfiguration) :=
  {| lastSyncBlock := lastSyncBlock c;
     lastSnapshotBlock := lastSnapshotBlock c;
     snapshotBlockLag := v |}.

(** The order on a nullable cursor: unset is below everything. *)
Definition cursor_le (a b : option Z) : Prop :=
  match a, b with
  | None, _ => True
  | Some x, Some y => x <= y
  | Some _, None => False
  end.

(** A chain block: its number and its wall-clock time. *)
Record Block : Type := { number : Z; datetime : Z }.

(** The seven synchronised entity types. *)
Inductive Entity : Type :=
| User | Symbol | Account | BalanceChange | Quote | TradeHistory | DailyHistory.

(** The order of the [SubgraphClient(...).sync] calls of [sync_data]. *)
Definition sync_order : list Entity :=
  [User; Symbol; Account; BalanceChange; Quote; TradeHistory; DailyHistory].

(** What a tenant is configured with ([Context]). *)
Record HedgerContext : Type := {
  hedger_name : string;
  binance_deposit_diff : Q;
  hedger_max_open_interest_ratio : Q;
  has_binance_keys : bool
}.

(** Reconciler invocations, as the orchestrator issues them. *)
Inductive Invocation : Type :=
| AffiliateSnapshotOf (affiliate : string) (hedger : string) (b : Block)
| LiquidatorSnapshotOf (liquidator : string) (b : Block)
| HedgerSnapshotOf (hedger : string) (b : Block)
| BinanceIncomeHistoriesOf (hedger : string)
| HedgerBinanceSnapshotOf (hedger : string) (b : Block).

Section Pipeline.

(** [config.settings]: the floor and the step of the lag, and the
    chain-only switch. *)
Variable SNAPSHOT_BLOCK_LAG : Z.
Variable SNAPSHOT_BLOCK_LAG_STEP : Z.
Variable CHAIN_ONLY : bool.

(** The rest of the database session (entity and snapshot tables): only
    the reconcilers touch it. *)
Variable DB : Type.

(** The environment.  [latest k] answers the [k]-th [Block.latest] read of
    the run ([inl] is the exception text of a failed read);
    [block_datetime n] is the time of block [n]; [sync k e b] answers the
    [k]-th [SubgraphClient(context, e).sync(session, b)] call: [None] when
    it returns, [Some msg] when it raises an exception with text [msg]. *)
Variable latest : nat -> string + Z.
Variable block_datetime : Z -> Z.
Variable sync : nat -> Entity -> Block -> option string.

(** The tenant's actors. *)
Variable affiliates : list string.
Variable liquidators : list string.
Variable hedgers : list HedgerContext.

(** The reconcilers and the income refresh, as transformers of the session
    that may raise. *)
Variable prepare_affiliate_snapshot :
  string -> HedgerContext -> Block -> DB -> outcome unit * DB.
Variable prepare_liquidator_snapshot :
  string -> Block -> DB -> outcome unit * DB.
Variable prepare_hedger_snapshot :
  HedgerContext -> Block -> DB -> outcome unit * DB.
Variable fetch_binance_income_histories :
  HedgerContext -> DB -> outcome unit * DB.
Variable prepare_hedger_binance_snapshot_of :
  HedgerContext -> Block -> DB -> outcome unit * DB.

(** The state a run threads through: how many chain and indexer calls were
    made, the configuration row as the session sees it and as last
    committed, the log of synchroniser calls and reconciler invocations,
    and the rest of the session. *)
Record World : Type := {
  head_reads : nat;
  sync_calls : nat;
  session_config : RuntimeConfiguration;
  committed_config : RuntimeConfiguration;
  sync_log : list (Entity * Z);
  invoked : list Invocation;
  db : DB
}.

(** Modelled from the spec: [load_config] (services/config_service.py is not
    part of the sources).  The cursor store holds one row per tenant, read
    through the session. *)
Definition load_config (w : World) : RuntimeConfiguration := session_config w.

(** [config.upsert(session)] for the single row of the tenant. *)
Definition upsert (c : RuntimeConfiguration) (w : World) : World :=
  {| head_reads := head_reads w; sync_calls := sync_calls w;
     session_config := c; committed_config := committed_config w;
     sync_log := sync_log w; invoked := invoked w; db := db w |}.

(** [session.commit()], as far as the configuration row goes. *)
Definition commit (w : World) : World :=
  {| head_reads := head_reads w; sync_calls := sync_calls w;
     session_config := session_config w;
     committed_config := session_config w;
     sync_log := sync_log w; invoked := invoked w; db := db w |}.

Definition count_head_read (w : World) : World :=
  {| head_reads := S (head_reads w); sync_calls := sync_calls w;
     session_config := session_config w;
     committed_config := committed_config w;
     sync_log := sync_log w; invoked := invoked w; db := db w |}.

Definition record_sync (e : Entity) (b : Block) (w : World) : World :=
  {| head_reads := head_reads w; sync_calls := S (sync_calls w);
     session_config := session_config w;
     committed_config := committed_config w;
     sync_log := sync_log w ++ [(e, number b)];
     invoked := invoked w; db := db w |}.

Definition record_invocation (i : Invocation) (d : DB) (w : World) : World :=
  {| head_reads := head_reads w; sync_calls := sync_calls w;
     session_config := session_config w;
     committed_config := committed_config w;
     sync_log := sync_log w; invoked := invoked w ++ [i]; db := d |}.

(** Modelled from the spec: [Block.backward] (utils/block.py is not part of
    the sources).  The target of a pass is the chain head minus the lag,
    looked up on the chain by number. *)
Definition backward (head lag : Z) : Block :=
  {| number := head - lag; datetime := block_datetime (head - lag) |}.

(** The [try] block of [sync_data]: the synchroniser calls, in order, up to
    the first one that raises. *)
Fixpoint run_syncs (es : list Entity) (b : Block) (w : World)
  : option string * World :=
  match es with
  | [] => (None, w)
  | e :: es' =>
      match sync (sync_calls w) e b with
      | Some msg => (Some msg, record_sync e b w)
      | None => run_syncs es' b (record_sync e b w)
      end
  end.

(** The state after the calls for [es] were all made. *)
Definition record_syncs (es : list Entity) (b : Block) (w : World) : World :=
  fold_left (fun w' e => record_sync e b w') es w.

(** The lag a successful pass leaves behind. *)
Definition tighten (lag : Z) : Z :=
  Z.max (lag - SNAPSHOT_BLOCK_LAG_STEP) SNAPSHOT_BLOCK_LAG.

(** [sync_data].  The source recurses without a bound; [fuel] bounds the
    number of passes of the model. *)
Fixpoint sync_data (fuel : nat) (w : World) : outcome Block * World :=
  match fuel with
  | O => (OutOfFuel, w)
  | S fuel' =>
      let config := load_config w in
      match latest (head_reads w) with
      | inl e => (Raised e, count_head_read w)
      | inr head =>
          let sync_block := backward head (snapshotBlockLag config) in
          match run_syncs sync_order sync_block (count_head_read w) with
          | (Some msg, w1) =>
              if ErrorText.contains ErrorText.lag_marker msg then
                match ErrorText.re_search msg with
                | None =>
                    (Raised "'NoneType' object has no attribute 'group'", w1)
                | Some last_synced_block =>
                    let config := load_config w1 in
                    match latest (head_reads w1) with
                    | inl e => (Raised e, count_head_read w1)
                    | inr head' =>
                        let lag := head' - last_synced_block in
                        let config := set_snapshotBlockLag lag config in
                        sync_data fuel'
                          (commit (upsert config (count_head_read w1)))
                    end
                end
              else (Raised msg, w1)
          | (None, w1) =>
              let config := set_lastSyncBlock (number sync_block) config in
              let config :=
                set_snapshotBlockLag
                  (Z.max (snapshotBlockLag config - SNAPSHOT_BLOCK_LAG_STEP)
                         SNAPSHOT_BLOCK_LAG) config in
              (Returned sync_block, commit (upsert config w1))
          end
      end
  end.

(** *** The snapshot orchestrator *)

(** Computations over the run state. *)
Definition M (A : Type) : Type := Run World A.

(** What the reconcilers leave alone: the call counters, the configuration
    row and the log of synchroniser calls. *)
Definition same_cursors (w w' : World) : Prop :=
  head_reads w' = head_reads w /\
  sync_calls w' = sync_calls w /\
  session_config w' = session_config w /\
  committed_config w' = committed_config w /\
  sync_log w' = sync_log w.

Definition keeps_cursors {A} (m : M A) : Prop :=
  forall w r w', m w = (r, w') -> same_cursors w w'.

(** A [for] loop whose body may raise. *)
Fixpoint for_each {A} (xs : list A) (body : A -> M unit) : M unit :=
  match xs with
  | [] => ret tt
  | x :: xs' => body x >> for_each xs' body
  end.

(** A reconciler call: logged, then run on the session. *)
Definition invoke (i : Invocation) (f : DB -> outcome unit * DB) : M unit :=
  fun w => let (r, d) := f (db w) in (r, record_invocation i d w).

(** Python truthiness of a nullable integer column. *)
Definition truthy (v : option Z) : bool :=
  match v with
  | Some n => negb (n =? 0)
  | None => false
  end.

(** [config.lastSnapshotBlock and config.lastSnapshotBlock >= number]. *)
Definition stale (config : RuntimeConfiguration) (snapshot_block : Block)
  : bool :=
  truthy (lastSnapshotBlock config) &&
  match lastSnapshotBlock config with
  | Some n => number snapshot_block <=? n
  | None => false
  end.

(** The first guard of [do_fetch_snapshot]: it re-reads the chain head into
    a local that nothing uses afterwards. *)
Definition refresh_endpoints : M unit :=
  fun w =>
    match latest (head_reads w) with
    | inl e => (Raised e, count_head_read w)
    | inr _ => (Returned tt, count_head_read w)
    end.

(** [raise f'...']: raising a [str] is itself a [TypeError]. *)
Definition raise_str : M unit :=
  raise "exceptions must derive from BaseException".

Definition hedger_pass (snapshot_block : Block) (h : HedgerContext)
  : M unit :=
  invoke (HedgerSnapshotOf (hedger_name h) snapshot_block)
         (prepare_hedger_snapshot h snapshot_block) >>
  (if negb CHAIN_ONLY && has_binance_keys h then
     invoke (BinanceIncomeHistoriesOf (hedger_name h))
            (fetch_binance_income_histories h) >>
     invoke (HedgerBinanceSnapshotOf (hedger_name h) snapshot_block)
            (prepare_hedger_binance_snapshot_of h snapshot_block)
   else ret tt).

Definition do_fetch_snapshot (snapshot_block : Block) : M unit :=
  fun w =>
    let config := load_config w in
    ((if stale config snapshot_block then refresh_endpoints else ret tt) >>
     (if stale config snapshot_block then raise_str else ret tt) >>
     for_each affiliates (fun a =>
       for_each hedgers (fun h =>
         invoke (AffiliateSnapshotOf a (hedger_name h) snapshot_block)
                (prepare_affiliate_snapshot a h snapshot_block))) >>
     for_each liquidators (fun l =>
       invoke (LiquidatorSnapshotOf l snapshot_block)
              (prepare_liquidator_snapshot l snapshot_block)) >>
     for_each hedgers (hedger_pass snapshot_block) >>
     (fun w' =>
        let config := set_lastSnapshotBlock (number snapshot_block) config in
        (Returned tt, commit (upsert config w')))) w.

(** [fetch_snapshot]: one pipeline run. *)
Definition fetch_snapshot (get_snapshot : bool) (fuel : nat) : M unit :=
  let* sync_block := sync_data fuel in
  if get_snapshot then do_fetch_snapshot sync_block else ret tt.

(** *** Sequences of runs and the environment they run in *)

(** One successful pipeline run, and sequences of them. *)
Definition successful_run (w w' : World) : Prop :=
  exists get_snapshot fuel,
    fetch_snapshot get_snapshot fuel w = (Returned tt, w').

Inductive successful_runs : World -> World -> Prop :=
| runs_done w : successful_runs w w
| runs_step w w1 w2 :
    successful_runs w w1 -> successful_run w1 w2 -> successful_runs w w2.

(** The chain head never reads lower than it did before. *)
Definition chain_advances : Prop :=
  forall j k h h',
    (j <= k)%nat -> latest j = inr h -> latest k = inr h' -> h <= h'.

(** [indexed k] is the last block the indexer has indexed when it gets its
    [k]-th call: it never goes back, a call that returns was for a block
    already indexed, and a lag error reports it and is raised only for a
    block beyond it. *)
Definition honest_indexer (indexed : nat -> Z) : Prop :=
  (forall j k, (j <= k)%nat -> indexed j <= indexed k) /\
  (forall k e b, sync k e b = None -> number b <= indexed k) /\
  (forall k e b msg N,
     sync k e b = Some msg ->
     ErrorText.contains ErrorText.lag_marker msg = true ->
     ErrorText.re_search msg = Some N ->
     N = indexed k /\ N < number b).

(** The cursor is consistent with the environment: the lag is at or above
    its floor, the indexer has reached [lastSyncBlock], and
    [lastSyncBlock] plus the lag is not beyond any chain head still to be
    read. *)
Definition settled (indexed : nat -> Z) (w : World) : Prop :=
  SNAPSHOT_BLOCK_LAG <= snapshotBlockLag (session_config w) /\
  forall s,
    lastSyncBlock (session_config w) = Some s ->
    s <= indexed (sync_calls w) /\
    forall k h,
      (head_reads w <= k)%nat -> latest k = inr h ->
      s + snapshotBlockLag (session_config w) <= h.

(** The first pass of a run started in [w] meets an indexer-lag error. *)
Definition lag_error_in_first_pass (w : World) : Prop :=
  exists head i e msg,
    latest (head_reads w) = inr head /\
    sync_order !! i = Some e /\
    sync (sync_calls w + i)%nat e
         (backward head (snapshotBlockLag (session_config w))) = Some msg /\
    ErrorText.contains ErrorText.lag_marker msg = true.

End Pipeline.

Arguments M DB A : clear implicits.
Arguments same_cursors {DB} w w'.
Arguments keeps_cursors {DB A} m.
Arguments for_each {DB A} xs body w.
Arguments invoke {DB} i f w.
Arguments head_reads {DB} w.
Arguments sync_calls {DB} w.
Arguments session_config {DB} w.
Arguments committed_config {DB} w.
Arguments sync_log {DB} w.
Arguments invoked {DB} w.
Arguments db {DB} w.
Arguments load_config {DB} w.
Arguments upsert {DB} c w.
Arguments commit {DB} w.
Arguments count_head_read {DB} w.
Arguments record_sync {DB} e b w.
Arguments record_invocation {DB} i d w.
Arguments record_syncs {DB} es b w.
Arguments run_syncs {DB} sync es b w.

(** ** The exchange reconciler *)

(** Rows of [binance_income] (the mirrored income ledger). *)
Module BinanceIncome.
Record t : Type := {
  id : Z;
  asset : string;
  type : string;
  amount : Q;
  timestamp : Z;
  tenant : string;
  hedger : string
}.
End BinanceIncome.

(** Rows of [stats_bot_message]: [content] is the cached account summary,
    read by key. *)
Module StatsBotMessage.
Record t : Type := {
  message_id : Z;
  timestamp : Z;
  content : gmap string Q;
  tenant : string
}.
End StatsBotMessage.

(** The row [prepare_hedger_binance_snapshot] builds: one field per
    attribute it sets on its [AttrDict] (the declaration of the class is not
    part of the sources).  The only attribute that may stay unset is
    [binance_next_funding_fee]. *)
Module HedgerBinanceSnapshot.
Record t : Type := {
  binance_deposit : Q;
  binance_maintenance_margin : Q;
  binance_total_balance : Q;
  binance_account_health_ratio : Q;
  binance_cross_upnl : Q;
  binance_av_balance : Q;
  binance_total_initial_margin : Q;
  binance_max_withdraw_amount : Q;
  max_open_interest : Q;
  binance_profit : Q;
  binance_trade_volume : Q;
  binance_paid_funding_fee : Q;
  binance_received_funding_fee : Q;
  binance_next_funding_fee : option Q;
  timestamp : Z;
  name : string;
  tenant : string;
  block_number : Z
}.
End HedgerBinanceSnapshot.

(** The answer of the exchange's futures-account endpoint. *)
Record BinanceAccount : Type := {
  totalMaintMargin : Q;
  totalMarginBalance : Q;
  totalCrossUnPnl : Q;
  availableBalance : Q;
  totalInitialMargin : Q;
  maxWithdrawAmount : Q
}.

(** One entry of the open-positions endpoint. *)
Record Position : Type := {
  notional : Q;
  symbol : string;
  positionSide : string
}.

(** Calls made to the outside while reconciling. *)
Inductive ApiCall : Type :=
| FuturesAccount
| FuturesPositionInformation
| RealTimeFundingRate (symbol : string)
| TradeVolume.

(** The session of a reconciliation: the two tables it reads, the snapshot
    rows already stored, the rows added to the session and not yet flushed,
    and the log of calls to the outside. *)
Record Session : Type := {
  binance_income : list BinanceIncome.t;
  stats_bot_message : list StatsBotMessage.t;
  stored : list HedgerBinanceSnapshot.t;
  new : list HedgerBinanceSnapshot.t;
  api_log : list ApiCall
}.

Definition log_call (c : ApiCall) (s : Session) : Session :=
  {| binance_income := binance_income s;
     stats_bot_message := stats_bot_message s;
     stored := stored s; new := new s;
     api_log := api_log s ++ [c] |}.

(** [BaseModel.save]: [session.add(self)]. *)
Definition save (row : HedgerBinanceSnapshot.t) (s : Session) : Session :=
  {| binance_income := binance_income s;
     stats_bot_message := stats_bot_message s;
     stored := stored s; new := new s ++ [row];
     api_log := api_log s |}.

(** What a reconciliation leaves alone until it saves its row: the tables
    and the rows already added to the session; the log of calls only
    grows. *)
Definition same_rows (s s' : Session) : Prop :=
  binance_income s' = binance_income s /\
  stats_bot_message s' = stats_bot_message s /\
  stored s' = stored s /\
  new s' = new s /\
  api_log s `prefix_of` api_log s'.

Definition keeps_rows {A} (m : Run Session A) : Prop :=
  forall s r s', m s = (r, s') -> same_rows s s'.

(** [10 ** 18]. *)
Definition e18 : Q := inject_Z (10 ^ 18).

(** [coalesce(sum(amount), 0)] over the rows a [where] clause keeps. *)
Definition sum_amount (keep : BinanceIncome.t -> bool)
           (rows : list BinanceIncome.t) : Q :=
  fold_right Qplus (0 : Q) (map BinanceIncome.amount (List.filter keep rows)).

Section Reconciler.

Local Open Scope Q_scope.

(** [context.tenant] and the global switch of [config.settings]. *)
Variable tenant : string.
Variable IGNORE_BINANCE_TRADE_VOLUME : bool.

(** [Block.is_for_past] and the printing of a [datetime]. *)
Variable is_for_past : Block -> bool.
Variable show_datetime : Z -> string.

(** The exchange, as the hedger's client sees it, and the two helpers of
    the services package: each may raise ([inl]). *)
Variable futures_account : string + BinanceAccount.
Variable futures_position_information : string + list Position.
Variable real_time_funding_rate : string -> string + Q.
Variable calculate_binance_trade_volume :
  HedgerContext -> Block -> string + Q.

Definition call {A} (c : ApiCall) (answer : string + A) : Run Session A :=
  fun s =>
    match answer with
    | inl e => (Raised e, log_call c s)
    | inr a => (Returned a, log_call c s)
    end.

(** The [where] clauses of the four ledger queries. *)
Definition transfer_row (ty : string) (h : HedgerContext) (b : Block)
           (r : BinanceIncome.t) : bool :=
  (BinanceIncome.timestamp r <=? datetime b)%Z &&
  String.eqb (BinanceIncome.type r) ty &&
  String.eqb (BinanceIncome.tenant r) tenant &&
  String.eqb (BinanceIncome.hedger r) (hedger_name h).

Definition paid_funding_row (b : Block) (r : BinanceIncome.t) : bool :=
  (BinanceIncome.timestamp r <=? datetime b)%Z &&
  negb (Qle_bool 0 (BinanceIncome.amount r)) &&
  String.eqb (BinanceIncome.type r) "FUNDING_FEE" &&
  String.eqb (BinanceIncome.tenant r) tenant.

Definition received_funding_row (b : Block) (r : BinanceIncome.t) : bool :=
  (BinanceIncome.timestamp r <=? datetime b)%Z &&
  negb (Qle_bool (BinanceIncome.amount r) 0) &&
  String.eqb (BinanceIncome.type r) "FUNDING_FEE" &&
  String.eqb (BinanceIncome.tenant r) tenant.

(** The [where] clause of the two transfer queries taken together. *)
Definition transfers_row (h : HedgerContext) (b : Block)
           (r : BinanceIncome.t) : bool :=
  (BinanceIncome.timestamp r <=? datetime b)%Z &&
  (String.eqb (BinanceIncome.type r) "TRANSFER" ||
   String.eqb (BinanceIncome.type r) "INTERNAL_TRANSFER") &&
  String.eqb (BinanceIncome.tenant r) tenant &&
  String.eqb (BinanceIncome.hedger r) (hedger_name h).

(** The funding-fee rows in the words of the specification: the tenant's
    rows narrowed to the hedger, the way the transfer queries are. *)
Definition hedger_paid_funding_row (h : HedgerContext) (b : Block)
           (r : BinanceIncome.t) : bool :=
  paid_funding_row b r && String.eqb (BinanceIncome.hedger r) (hedger_name h).

Definition hedger_received_funding_row (h : HedgerContext) (b : Block)
           (r : BinanceIncome.t) : bool :=
  received_funding_row b r &&
  String.eqb (BinanceIncome.hedger r) (hedger_name h).

(** Lines 62-68: the deposit baseline. *)
Definition deposit_baseline (transfer_sum internal_transfer_sum : Q)
           (h : HedgerContext) : Q :=
  let total_transfers := transfer_sum + internal_transfer_sum in
  let is_negative := negb (Qle_bool 0 total_transfers) in
  (if is_negative then - (Qabs total_transfers * e18)
   else total_transfers * e18) + binance_deposit_diff h.

(** The [where] clause of the fallback lookup: within the three minutes
    before the block, for this tenant. *)
Definition fallback_row (b : Block) (m : StatsBotMessage.t) : bool :=
  (StatsBotMessage.timestamp m <=? datetime b)%Z &&
  (datetime b - 180 <=? StatsBotMessage.timestamp m)%Z &&
  String.eqb (StatsBotMessage.tenant m) tenant.

(** A message of this tenant dated within the three minutes before the
    block. *)
Definition in_window (b : Block) (m : StatsBotMessage.t) : Prop :=
  (StatsBotMessage.timestamp m <= datetime b)%Z /\
  (datetime b - 180 <= StatsBotMessage.timestamp m)%Z /\
  StatsBotMessage.tenant m = tenant.

(** The lookup in the words of the specification: of the messages in the
    window, the most recent one (the later row on a tie). *)
Definition most_recent_fallback (b : Block) (rows : list StatsBotMessage.t)
  : option StatsBotMessage.t :=
  fold_left
    (fun best m =>
       if fallback_row b m then
         match best with
         | Some m0 =>
             if (StatsBotMessage.timestamp m0 <=? StatsBotMessage.timestamp m)%Z
             then Some m else best
         | None => Some m
         end
       else best)
    rows None.

(** [session.scalar(select(...))]: the first row of the result.  The query
    has no [order_by]; the table is listed in the order the database
    returns its rows. *)
Definition scalar (b : Block) (rows : list StatsBotMessage.t)
  : option StatsBotMessage.t :=
  List.find (fallback_row b) rows.

(** [stat_message.content[key]]. *)
Definition item (m : StatsBotMessage.t) (key : string) : Run Session Q :=
  match StatsBotMessage.content m !! key with
  | Some v => ret v
  | None => raise ("'" ++ key ++ "'")%string
  end.

(** [Decimal] division, which traps a zero divisor. *)
Definition decimal_div (x y : Q) : Run Session Q :=
  if Qeq_bool y 0 then
    if Qeq_bool x 0 then raise "[<class 'decimal.DivisionUndefined'>]"
    else raise "[<class 'decimal.DivisionByZero'>]"
  else ret (x / y).

(** The seven account metrics and [max_open_interest]. *)
Record Metrics : Type := {
  m_maintenance_margin : Q;
  m_total_balance : Q;
  m_account_health_ratio : Q;
  m_cross_upnl : Q;
  m_av_balance : Q;
  m_total_initial_margin : Q;
  m_max_withdraw_amount : Q;
  m_max_open_interest : Q
}.

(** Lines 71-81: the live branch. *)
Definition live_metrics (h : HedgerContext) : Run Session Metrics :=
  let* binance_account := call FuturesAccount futures_account in
  let maintenance_margin := totalMaintMargin binance_account * e18 in
  let total_balance := totalMarginBalance binance_account * e18 in
  let* ratio := decimal_div maintenance_margin total_balance in
  let max_withdraw_amount := maxWithdrawAmount binance_account * e18 in
  ret {| m_maintenance_margin := maintenance_margin;
         m_total_balance := total_balance;
         m_account_health_ratio := 100 - ratio * 100;
         m_cross_upnl := totalCrossUnPnl binance_account * e18;
         m_av_balance := availableBalance binance_account * e18;
         m_total_initial_margin := totalInitialMargin binance_account * e18;
         m_max_withdraw_amount := max_withdraw_amount;
         m_max_open_interest :=
           hedger_max_open_interest_ratio h * max_withdraw_amount |}.

(** Lines 83-103: the past branch. *)
Definition fallback_metrics (h : HedgerContext) (b : Block)
  : Run Session Metrics :=
  fun s =>
    match scalar b (stats_bot_message s) with
    | None =>
        raise (tenant ++ ": StatBot message not found for date: "
               ++ show_datetime (datetime b))%string s
    | Some stat_message =>
        (let* maintenance_margin := item stat_message "Total Maint. Margin" in
         let* total_balance := item stat_message "Total Margin Balance" in
         let* health_ratio := item stat_message "Health Ratio" in
         let* cross_upnl := item stat_message "Total Cross UnPnl" in
         let* av_balance := item stat_message "Available Balance" in
         let* total_initial_margin :=
           item stat_message "Total Initial Margin" in
         let* max_withdraw_amount :=
           item stat_message "Max Withdraw Amount" in
         ret {| m_maintenance_margin := maintenance_margin;
                m_total_balance := total_balance;
                m_account_health_ratio := health_ratio;
                m_cross_upnl := cross_upnl;
                m_av_balance := av_balance;
                m_total_initial_margin := total_initial_margin;
                m_max_withdraw_amount := max_withdraw_amount;
                m_max_open_interest :=
                  hedger_max_open_interest_ratio h * max_withdraw_amount |}) s
    end.

(** Lines 137-146: the loop over the open positions. *)
Fixpoint next_funding_fee (open_positions : list Position) (acc : Q)
  : Run Session Q :=
  match open_positions with
  | [] => ret acc
  | pos :: rest =>
      let* funding_rate :=
        call (RealTimeFundingRate (symbol pos))
             (real_time_funding_rate (symbol pos)) in
      let funding_rate_fee := (-1) * notional pos * funding_rate in
      next_funding_fee rest (acc + funding_rate_fee * e18)
  end.

Definition is_open (p : Position) : bool := negb (Qeq_bool (notional p) 0).

(** The funding rate of a symbol, when the helper returns one. *)
Definition rate_of (symbol : string) : Q :=
  match real_time_funding_rate symbol with
  | inr rate => rate
  | inl _ => 0
  end.

(** The sum, over the positions with a non-zero notional, of
    [-notional * rate] scaled by [10 ** 18]. *)
Definition funding_fee_sum (positions : list Position) : Q :=
  fold_right Qplus 0
    (map (fun p => (-1) * notional p * rate_of (symbol p) * e18)
         (List.filter is_open positions)).

(** [x or Decimal(0)]. *)
Definition or_zero (x : Q) : Q := if Qeq_bool x 0 then 0 else x.

(** Step 2: the branch on [block.is_for_past()]. *)
Definition account_metrics (h : HedgerContext) (b : Block)
  : Run Session Metrics :=
  if negb (is_for_past b) then live_metrics h else fallback_metrics h b.

(** Lines 106-109. *)
Definition trade_volume (h : HedgerContext) (b : Block) : Run Session Q :=
  if IGNORE_BINANCE_TRADE_VOLUME then ret 0
  else let* v := call TradeVolume (calculate_binance_trade_volume h b) in
       ret (v * e18).

(** Lines 134-148: set for a live block only. *)
Definition binance_next_funding_fee (b : Block) : Run Session (option Q) :=
  if negb (is_for_past b) then
    let* positions := call FuturesPositionInformation
                           futures_position_information in
    let open_positions := List.filter is_open positions in
    let* fee := next_funding_fee open_positions 0 in
    ret (Some fee)
  else ret None.

(** Lines 150-155: the row built from the attribute dictionary. *)
Definition assemble (deposit : Q) (m : Metrics) (volume paid received : Q)
           (next : option Q) (h : HedgerContext) (b : Block)
  : HedgerBinanceSnapshot.t :=
  {| HedgerBinanceSnapshot.binance_deposit := deposit;
     HedgerBinanceSnapshot.binance_maintenance_margin := m_maintenance_margin m;
     HedgerBinanceSnapshot.binance_total_balance := m_total_balance m;
     HedgerBinanceSnapshot.binance_account_health_ratio :=
       m_account_health_ratio m;
     HedgerBinanceSnapshot.binance_cross_upnl := m_cross_upnl m;
     HedgerBinanceSnapshot.binance_av_balance := m_av_balance m;
     HedgerBinanceSnapshot.binance_total_initial_margin :=
       m_total_initial_margin m;
     HedgerBinanceSnapshot.binance_max_withdraw_amount :=
       m_max_withdraw_amount m;
     HedgerBinanceSnapshot.max_open_interest := m_max_open_interest m;
     HedgerBinanceSnapshot.binance_profit :=
       m_total_balance m - or_zero deposit;
     HedgerBinanceSnapshot.binance_trade_volume := volume;
     HedgerBinanceSnapshot.binance_paid_funding_fee := paid;
     HedgerBinanceSnapshot.binance_received_funding_fee := received;
     HedgerBinanceSnapshot.binance_next_funding_fee := next;
     HedgerBinanceSnapshot.timestamp := datetime b;
     HedgerBinanceSnapshot.name := hedger_name h;
     HedgerBinanceSnapshot.tenant := tenant;
     HedgerBinanceSnapshot.block_number := number b |}.

Definition prepare_hedger_binance_snapshot (h : HedgerContext) (b : Block)
  : Run Session HedgerBinanceSnapshot.t :=
  fun s =>
    let transfer_sum :=
      sum_amount (transfer_row "TRANSFER" h b) (binance_income s) in
    let internal_transfer_sum :=
      sum_amount (transfer_row "INTERNAL_TRANSFER" h b) (binance_income s) in
    let deposit := deposit_baseline transfer_sum internal_transfer_sum h in
    (let* m := account_metrics h b in
     let* volume := trade_volume h b in
     let paid := sum_amount (paid_funding_row b) (binance_income s) in
     let received := sum_amount (received_funding_row b) (binance_income s) in
     let* next := binance_next_funding_fee b in
     let hedger_snapshot :=
       assemble deposit m volume paid received next h b in
     fun s' => (Returned hedger_snapshot, save hedger_snapshot s')) s.

End Reconciler.

(** ** Flushing the session *)

Section Flush.

(** The primary key of the snapshot table. *)
Context {K : Type} `{EqDecision K}.
Variable primary_key : HedgerBinanceSnapshot.t -> K.

Definition key_present (k : K) (table : list HedgerBinanceSnapshot.t) : bool :=
  existsb (fun r => bool_decide (primary_key r = k)) table.

(** One [INSERT]: refused when the key of the row is already in the table. *)
Definition insert_row (r : HedgerBinanceSnapshot.t)
           (table : list HedgerBinanceSnapshot.t)
  : option (list HedgerBinanceSnapshot.t) :=
  if key_present (primary_key r) table then None else Some (table ++ [r])%list.

Fixpoint insert_rows (rows table : list HedgerBinanceSnapshot.t)
  : option (list HedgerBinanceSnapshot.t) :=
  match rows with
  | [] => Some table
  | r :: rows' =>
      match insert_row r table with
      | Some table' => insert_rows rows' table'
      | None => None
      end
  end.

(** What the session does with the rows [save] added when it is flushed
    (at the latest on [session.commit()]): one [INSERT] per row, in the
    order they were added; a refused [INSERT] raises an [IntegrityError]
    and the transaction leaves the table as it was. *)
Definition flush : Run Session unit :=
  fun s =>
    match insert_rows (new s) (stored s) with
    | Some table =>
        (Returned tt,
         {| binance_income := binance_income s;
            stats_bot_message := stats_bot_message s;
            stored := table; new := [];
            api_log := api_log s |})
    | None =>
        (Raised "duplicate key value violates unique constraint", s)
    end.

End Flush.

(** ** Scenarios *)

Module Scenario.

(** The text of the indexer's lag error, last indexed block 1000. *)
Definition lag_message : string :=
  "Failed to decode `block.number` value: `subgraph QmAnalytics has only indexed up to block number 1000 and data for block number 1030 is therefore not yet available`".

(** A chain whose head stays at 1050, twelve seconds per block. *)
Definition head_1050 (k : nat) : string + Z := inr 1050.
Definition block_datetime (n : Z) : Z := 12 * n.

(** An indexer at block 1000: the [Quote] query of a pass that asks for a
    later block raises the lag error, every other call returns. *)
Definition indexer_at_1000 (k : nat) (e : Entity) (b : Block) : option string :=
  match e with
  | Quote => if 1000 <? number b then Some lag_message else None
  | _ => None
  end.

(** An indexer that has caught up: every call returns. *)
Definition indexer_caught_up (k : nat) (e : Entity) (b : Block)
  : option string := None.

(** An honest indexer at block 1000: a call for a later block raises the
    lag error, whatever the entity. *)
Definition honest_indexer_at_1000 (k : nat) (e : Entity) (b : Block)
  : option string :=
  if 1000 <? number b then Some lag_message else None.

(** A chain read through two endpoints, the second of which is ten blocks
    behind the first. *)
Definition head_lagging (k : nat) : string + Z :=
  match k with
  | O => inr 1050
  | S _ => inr 1040
  end.

(** The lag floor and step used in the scenarios. *)
Definition floor : Z := 10.
Definition step : Z := 5.

Definition config (sync snapshot : option Z) (lag : Z) : RuntimeConfiguration :=
  {| lastSyncBlock := sync; lastSnapshotBlock := snapshot;
     snapshotBlockLag := lag |}.

(** A run state with nothing done yet. *)
Definition fresh {DB} (d : DB) (c : RuntimeConfiguration) : World DB :=
  {| head_reads := 0; sync_calls := 0;
     session_config := c; committed_config := c;
     sync_log := []; invoked := []; db := d |}.

(** A tenant with one affiliate, one liquidator and one hedger with
    exchange keys.  The session is the number of snapshot rows written so
    far: every reconciler writes one, the income refresh writes none. *)
Definition hedger : HedgerContext :=
  {| hedger_name := "hedger"; binance_deposit_diff := 5%Q;
     hedger_max_open_interest_ratio := 2%Q; has_binance_keys := true |}.

Definition writes_row (rows : nat) : outcome unit * nat :=
  (Returned tt, S rows).

Definition writes_nothing (rows : nat) : outcome unit * nat :=
  (Returned tt, rows).

Definition pipeline (latest : nat -> string + Z)
           (sync : nat -> Entity -> Block -> option string)
           (get_snapshot : bool) (fuel : nat) : M nat unit :=
  fetch_snapshot floor step false nat latest block_datetime sync
    ["affiliate"] ["liquidator"] [hedger]
    (fun _ _ _ => writes_row) (fun _ _ => writes_row) (fun _ _ => writes_row)
    (fun _ => writes_nothing) (fun _ _ => writes_row) get_snapshot fuel.

Definition snapshots (latest : nat -> string + Z) (b : Block) : M nat unit :=
  do_fetch_snapshot false nat latest ["affiliate"] ["liquidator"] [hedger]
    (fun _ _ _ => writes_row) (fun _ _ => writes_row) (fun _ _ => writes_row)
    (fun _ => writes_nothing) (fun _ _ => writes_row) b.

(** *** A tenant's ledger and exchange *)

Definition income (id : Z) (type : string) (amount : Q) (timestamp : Z)
           (tenant hedger : string) : BinanceIncome.t :=
  {| BinanceIncome.id := id; BinanceIncome.asset := "USDT";
     BinanceIncome.type := type; BinanceIncome.amount := amount;
     BinanceIncome.timestamp := timestamp;
     BinanceIncome.tenant := tenant; BinanceIncome.hedger := hedger |}.

(** Scenario 3: transfers of -150 and internal transfers of 30 for the
    hedger, next to rows of another hedger, of another tenant and of a later
    date. *)
Definition ledger : list BinanceIncome.t :=
  [ income 1 "TRANSFER" (-100) 100 "tenant" "hedger";
    income 2 "TRANSFER" (-50) 200 "tenant" "hedger";
    income 3 "INTERNAL_TRANSFER" 30 300 "tenant" "hedger";
    income 4 "FUNDING_FEE" (-3) 400 "tenant" "hedger";
    income 5 "FUNDING_FEE" 5 500 "tenant" "hedger";
    income 6 "TRANSFER" 1000 100 "tenant" "other";
    income 7 "TRANSFER" 77 100 "elsewhere" "hedger";
    income 8 "TRANSFER" 99 99999 "tenant" "hedger";
    income 9 "COMMISSION" (-1) 100 "tenant" "hedger" ]%Q.

(** The same ledger after the tenant's second hedger was charged and paid
    funding fees. *)
Definition ledger_two_hedgers : list BinanceIncome.t :=
  ledger ++ [ income 10 "FUNDING_FEE" (-7) 450 "tenant" "other";
              income 11 "FUNDING_FEE" 11 550 "tenant" "other" ]%Q.

Definition account (balance : Q) : BinanceAccount :=
  {| totalMaintMargin := 10; totalMarginBalance := balance;
     totalCrossUnPnl := -3; availableBalance := 150;
     totalInitialMargin := 40; maxWithdrawAmount := 120 |}%Q.

Definition positions : list Position :=
  [ {| notional := 1000; symbol := "BTCUSDT"; positionSide := "BOTH" |};
    {| notional := 0; symbol := "ETHUSDT"; positionSide := "BOTH" |};
    {| notional := -500; symbol := "SOLUSDT"; positionSide := "BOTH" |} ]%Q.

Definition funding_rate (symbol : string) : string + Q :=
  inr (if String.eqb symbol "BTCUSDT" then 1 / 10000 else 3 / 10000)%Q.

(** A cached account summary. *)
Definition summary (id timestamp : Z) (balance : Q) (tenant : string)
  : StatsBotMessage.t :=
  {| StatsBotMessage.message_id := id;
     StatsBotMessage.timestamp := timestamp;
     StatsBotMessage.content :=
       list_to_map
         [ ("Total Maint. Margin", 10 * e18); ("Total Margin Balance", balance);
           ("Health Ratio", 95); ("Total Cross UnPnl", -3 * e18);
           ("Available Balance", 150 * e18);
           ("Total Initial Margin", 40 * e18);
           ("Max Withdraw Amount", 120 * e18) ]%Q;
     StatsBotMessage.tenant := tenant |}.

(** Blocks dated before 10000 are past blocks. *)
Definition is_for_past (b : Block) : bool := datetime b <? 10000.
Definition show_datetime (t : Z) : string := "the block's datetime".

Definition live_block : Block := {| number := 1030; datetime := 12360 |}.
Definition past_block : Block := {| number := 500; datetime := 6000 |}.

(** Two summaries of the tenant within the three minutes before the past
    block, the older one listed first, after one that is too old. *)
Definition summaries : list StatsBotMessage.t :=
  [ summary 0 5000 100 "tenant";
    summary 1 5850 111 "tenant";
    summary 2 5990 222 "tenant" ]%Q.

(** Summaries none of which serves the past block: too old, too recent,
    or of another tenant. *)
Definition useless_summaries : list StatsBotMessage.t :=
  [ summary 0 5000 100 "tenant";
    summary 1 6001 111 "tenant";
    summary 2 5990 222 "elsewhere" ]%Q.

Definition session (rows : list BinanceIncome.t)
           (messages : list StatsBotMessage.t) : Session :=
  {| binance_income := rows; stats_bot_message := messages;
     stored := []; new := []; api_log := [] |}.

(** The reconciler of tenant [tenant] against an exchange that reports the
    given total margin balance. *)
Definition reconcile (balance : Q) :=
  prepare_hedger_binance_snapshot "tenant" false is_for_past show_datetime
    (inr (account balance)) (inr positions) funding_rate
    (fun _ _ => inr 7%Q) hedger.

(** A snapshot row of the live block for a given total balance. *)
Definition snapshot_with (balance : Q) : HedgerBinanceSnapshot.t :=
  assemble "tenant" (- (120 * e18) + 5)%Q
    {| m_maintenance_margin := 10 * e18; m_total_balance := balance * e18;
       m_account_health_ratio := 95; m_cross_upnl := -3 * e18;
       m_av_balance := 150 * e18; m_total_initial_margin := 40 * e18;
       m_max_withdraw_amount := 120 * e18;
       m_max_open_interest := 240 * e18 |}%Q
    (7 * e18)%Q (-3)%Q 5%Q None hedger live_block.

(** The key the snapshot rows are meant to be unique on. *)
Definition snapshot_key (r : HedgerBinanceSnapshot.t) : string * string * Z :=
  (HedgerBinanceSnapshot.tenant r, HedgerBinanceSnapshot.name r,
   HedgerBinanceSnapshot.timestamp r).

(** The live block reconciled and flushed, then reconciled again after the
    exchange balance moved from 200 to 300. *)
Definition reconciled_once : Run Session unit :=
  reconcile 200%Q live_block >> flush snapshot_key.

Definition reconciled_again : Run Session HedgerBinanceSnapshot.t :=
  reconciled_once >> reconcile 300%Q live_block.

End Scenario.

(** ** Further scenarios *)

Module Cases.

(** An indexer whose [Account] query fails for a reason of its own. *)
Definition indexer_down (k : nat) (e : Entity) (b : Block) : option string :=
  match e with
  | Account => Some "connection refused"
  | _ => None
  end.

(** An indexer whose lag error carries no block number. *)
Definition indexer_garbled (k : nat) (e : Entity) (b : Block)
  : option string :=
  Some "has only indexed up to block number unknown".

(** A chain that gains a block between any two reads of its head. *)
Definition head_growing (k : nat) : string + Z := inr (1050 + Z.of_nat k).

(** A reconciler that raises. *)
Definition unavailable (rows : nat) : outcome unit * nat :=
  (Raised "liquidator unavailable", rows).

(** The tenant of [Scenario] with a failing liquidator reconciler. *)
Definition snapshots_failing (b : Block) : M nat unit :=
  do_fetch_snapshot false nat Scenario.head_1050
    ["affiliate"] ["liquidator"] [Scenario.hedger]
    (fun _ _ _ => Scenario.writes_row) (fun _ _ => unavailable)
    (fun _ _ => Scenario.writes_row) (fun _ => Scenario.writes_nothing)
    (fun _ _ => Scenario.writes_row) b.

(** The tenant of [Scenario] in chain-only mode. *)
Definition snapshots_chain_only (b : Block) : M nat unit :=
  do_fetch_snapshot true nat Scenario.head_1050
    ["affiliate"] ["liquidator"] [Scenario.hedger]
    (fun _ _ _ => Scenario.writes_row) (fun _ _ => Scenario.writes_row)
    (fun _ _ => Scenario.writes_row) (fun _ => Scenario.writes_nothing)
    (fun _ _ => Scenario.writes_row) b.

(** The ledger of [Scenario] with one more row, of another tenant. *)
Definition ledger_elsewhere : list BinanceIncome.t :=
  Scenario.income 12 "FUNDING_FEE" (-40)%Q 450 "elsewhere" "hedger"
  :: Scenario.ledger.

(** A cached summary of the tenant, within the three minutes before the
    past block, that holds two of the seven figures. *)
Definition partial_summary : StatsBotMessage.t :=
  {| StatsBotMessage.message_id := 3;
     StatsBotMessage.timestamp := 5990;
     StatsBotMessage.content :=
       list_to_map [ ("Total Maint. Margin", 10%Q);
                     ("Total Margin Balance", 111%Q) ];
     StatsBotMessage.tenant := "tenant" |}.

(** An account whose only position is closed. *)
Definition flat_positions : list Position :=
  [ {| notional := 0%Q; symbol := "ETHUSDT"; positionSide := "BOTH" |} ].

Definition reconcile_flat :=
  prepare_hedger_binance_snapshot "tenant" false Scenario.is_for_past
    Scenario.show_datetime (inr (Scenario.account 200%Q))
    (inr flat_positions) Scenario.funding_rate
    (fun _ _ => inr 7%Q) Scenario.hedger.

End Cases.

(** ** The invocations of a snapshot pass *)

Section Invocations.

Variable CHAIN_ONLY : bool.
Variables (affiliates liquidators : list string) (hedgers : list HedgerContext).

(** What the loop over the hedgers invokes for one hedger. *)
Definition hedger_invocations (b : Block) (h : HedgerContext)
  : list Invocation :=
  HedgerSnapshotOf (hedger_name h) b
  :: (if negb CHAIN_ONLY && has_binance_keys h
      then [BinanceIncomeHistoriesOf (hedger_name h);
            HedgerBinanceSnapshotOf (hedger_name h) b]
      else []).

(** The invocations of a whole pass, in the order of the three loops of
    [do_fetch_snapshot]. *)
Definition snapshot_invocations (b : Block) : list Invocation :=
  flat_map (fun a =>
              map (fun h => AffiliateSnapshotOf a (hedger_name h) b) hedgers)
           affiliates
  ++ map (fun l => LiquidatorSnapshotOf l b) liquidators
  ++ flat_map (hedger_invocations b) hedgers.

End Invocations.

Section SnapshotLoops.

Variables (CHAIN_ONLY : bool) (DB : Type).
Variables (affiliates liquidators : list string) (hedgers : list HedgerContext).
Variable prepare_affiliate_snapshot :
  string -> HedgerContext -> Block -> DB -> outcome unit * DB.
Variable prepare_liquidator_snapshot :
  string -> Block -> DB -> outcome unit * DB.
Variable prepare_hedger_snapshot :
  HedgerContext -> Block -> DB -> outcome unit * DB.
Variable fetch_binance_income_histories :
  HedgerContext -> DB -> outcome unit * DB.
Variable prepare_hedger_binance_snapshot_of :
  HedgerContext -> Block -> DB -> outcome unit * DB.

(** The three loops of [do_fetch_snapshot], lines 86-104, on their own. *)
Definition reconcile_all (b : Block) : M DB unit :=
  for_each affiliates (fun a =>
    for_each hedgers (fun h =>
      invoke (AffiliateSnapshotOf a (hedger_name h) b)
             (prepare_affiliate_snapshot a h b))) >>
  for_each liquidators (fun l =>
    invoke (LiquidatorSnapshotOf l b) (prepare_liquidator_snapshot l b)) >>
  for_each hedgers
    (hedger_pass CHAIN_ONLY DB prepare_hedger_snapshot
       fetch_binance_income_histories prepare_hedger_binance_snapshot_of b).

End SnapshotLoops.

(** The invocations that reach the exchange. *)
Definition is_binance (i : Invocation) : bool :=
  match i with
  | BinanceIncomeHistoriesOf _ | HedgerBinanceSnapshotOf _ _ => true
  | _ => false
  end.

(** A computation that invokes the reconcilers of [l] in order and stops at
    the first that does not return. *)
Definition logs {DB A} (m : M DB A) (l : list Invocation) : Prop :=
  forall w r w',
    m w = (r, w') ->
    exists done,
      invoked w' = invoked w ++ done /\
      done `prefix_of` l /\
      (forall a, r = Returned a -> done = l).

(** A computation that returns from every state. *)
Definition returns {S A} (m : Run S A) : Prop :=
  forall s, exists a s', m s = (Returned a, s').

(** ** Views of the reconciler's inputs *)

(** The rows of the income ledger a reconciliation can select: those of the
    tenant dated up to the block. *)
Definition visible_row (tenant : string) (b : Block) (r : BinanceIncome.t)
  : bool :=
  (BinanceIncome.timestamp r <=? datetime b)%Z &&
  String.eqb (BinanceIncome.tenant r) tenant.

(** The [FUNDING_FEE] rows among them, whatever the sign of their amount. *)
Definition funding_row (tenant : string) (b : Block) (r : BinanceIncome.t)
  : bool :=
  (BinanceIncome.timestamp r <=? datetime b)%Z &&
  String.eqb (BinanceIncome.type r) "FUNDING_FEE" &&
  String.eqb (BinanceIncome.tenant r) tenant.

(** The keys of [stat_message.content], in the order lines 95-101 read
    them. *)
Definition fallback_keys : list string :=
  ["Total Maint. Margin"; "Total Margin Balance"; "Health Ratio";
   "Total Cross UnPnl"; "Available Balance"; "Total Initial Margin";
   "Max Withdraw Amount"].

(** Sessions that hold the same cached summaries. *)
Definition same_messages (s1 s2 : Session) : Prop :=
  stats_bot_message s1 = stats_bot_message s2.

(** A computation that depends on the session through the cached summaries
    only, and keeps them in step. *)
Definition reads_messages_only {A} (m : Run Session A) : Prop :=
  forall s1 s2, same_messages s1 s2 ->
    (m s1).1 = (m s2).1 /\ same_messages (m s1).2 (m s2).2.

(** ** Texts around the lag error *)

(** A text made of decimal digits only. *)
Fixpoint all_digits (s : string) : bool :=
  match s with
  | EmptyString => true
  | String c s' => ErrorText.is_digit c && all_digits s'
  end.

(** A text whose first character is a decimal digit. *)
Definition starts_with_digit (s : string) : bool :=
  match s with
  | EmptyString => false
  | String c _ => ErrorText.is_digit c
  end.

(** ** Namespacing of subgraph entities ([cronjobs/data_loaders.py]) *)

Section DataLoaders.

(** The values of an entity's fields, the text an f-string gives for a
    value, and the [str] objects among the values. *)
Variable Value : Type.
Variable format : Value -> string.
Variable str : string -> Value.

(** [tag_tenant_to_id]: [data["id"] = f"{context.tenant}_{data['id']}"],
    a [KeyError] when the entity has no [id].  The dictionary is changed in
    place and returned; the model returns the changed dictionary. *)
Definition tag_tenant_to_id (data : gmap string Value) (tenant : string)
  : outcome (gmap string Value) :=
  match data !! "id" with
  | Some v => Returned (<["id" := str (tenant ++ "_" ++ format v)]> data)
  | None => Raised "'id'"
  end.

(** [tag_tenant_quote_id]: the same on the field [quote]. *)
Definition tag_tenant_quote_id (data : gmap string Value) (tenant : string)
  : outcome (gmap string Value) :=
  match data !! "quote" with
  | Some v => Returned (<["quote" := str (tenant ++ "_" ++ format v)]> data)
  | None => Raised "'quote'"
  end.

End DataLoaders.

Arguments tag_tenant_to_id {Value} format str data tenant.
Arguments tag_tenant_quote_id {Value} format str data tenant.

(** Two entities as the subgraph delivers them, every field a string. *)
Module Entities.

Definition quote : gmap string string :=
  <["id" := "7"]> (<["quantity" := "3"]> empty).

Definition trade : gmap string string :=
  <["id" := "19"]> (<["quote" := "7"]> empty).

Definition text (s : string) : string := s.

End Entities.

(** * Properties *)

(** ** The block resolver *)

Section Passes.

Variable DB : Type.
Variable sync : nat -> Entity -> Block -> option string.

Lemma record_syncs_snoc es e b (w : World DB) :
  record_syncs (es ++ [e]) b w = record_sync e b (record_syncs es b w).
Proof. unfold record_syncs. now rewrite fold_left_app. Qed.

Lemma record_syncs_fields es b (w : World DB) :
  head_reads (record_syncs es b w) = head_reads w /\
  sync_calls (record_syncs es b w) = (sync_calls w + length es)%nat /\
  session_config (record_syncs es b w) = session_config w /\
  committed_config (record_syncs es b w) = committed_config w /\
  sync_log (record_syncs es b w)
    = sync_log w ++ map (fun e => (e, number b)) es /\
  invoked (record_syncs es b w) = invoked w /\
  db (record_syncs es b w) = db w.
Proof.
  revert w. induction es as [|e es IH]; intros w; simpl.
  - rewrite Nat.add_0_r, app_nil_r. tauto.
  - destruct (IH (record_sync e b w)) as (H1 & H2 & H3 & H4 & H5 & H6 & H7).
    unfold record_syncs in H1, H2, H3, H4, H5, H6, H7 |- *.
    rewrite H1, H2, H3, H4, H5, H6, H7. simpl.
    rewrite <- app_assoc. simpl. repeat split; try reflexivity. lia.
Qed.

(** When every call of a pass returns, the pass makes all of them. *)
Lemma run_syncs_all es b (w : World DB) :
  (forall i e, es !! i = Some e ->
               sync (sync_calls w + i)%nat e b = None) ->
  run_syncs sync es b w = (None, record_syncs es b w).
Proof.
  revert w. induction es as [|e es IH]; intros w Hok; simpl; [reflexivity|].
  pose proof (Hok 0%nat e eq_refl) as H0. rewrite Nat.add_0_r in H0.
  rewrite H0. apply IH. intros i e' Hi. simpl.
  specialize (Hok (S i) e' Hi). now rewrite Nat.add_succ_r in Hok.
Qed.

(** When call [i] is the first to raise, the pass stops right after it. *)
Lemma run_syncs_raise es b (w : World DB) i e msg :
  es !! i = Some e ->
  (forall j e', (j < i)%nat -> es !! j = Some e' ->
                sync (sync_calls w + j)%nat e' b = None) ->
  sync (sync_calls w + i)%nat e b = Some msg ->
  run_syncs sync es b w = (Some msg, record_syncs (take (S i) es) b w).
Proof.
  revert w i. induction es as [|e0 es IH]; intros w i Hi Hbefore Hraise.
  - discriminate.
  - destruct i as [|i]; simpl in *.
    + injection Hi as ->. rewrite Nat.add_0_r in Hraise. rewrite Hraise.
      reflexivity.
    + pose proof (Hbefore 0%nat e0 ltac:(lia) eq_refl) as H0.
      rewrite Nat.add_0_r in H0. rewrite H0.
      apply IH; [exact Hi| |].
      * intros j e' Hj He'. simpl.
        specialize (Hbefore (S j) e' ltac:(lia) He').
        now rewrite Nat.add_succ_r in Hbefore.
      * simpl. now rewrite Nat.add_succ_r in Hraise.
Qed.

(** Whatever the answers, a pass makes the calls of some prefix of its
    list, in order. *)
Lemma run_syncs_shape es b (w : World DB) :
  exists n, (run_syncs sync es b w).2 = record_syncs (take n es) b w.
Proof.
  revert w. induction es as [|e es IH]; intros w; simpl.
  - exists 0%nat. reflexivity.
  - destruct (sync (sync_calls w) e b) as [msg|].
    + exists 1%nat. reflexivity.
    + destruct (IH (record_sync e b w)) as [n Hn]. exists (S n). exact Hn.
Qed.

Lemma run_syncs_first e es b (w : World DB) :
  exists n, (run_syncs sync (e :: es) b w).2
            = record_syncs (take n es) b (record_sync e b w).
Proof.
  simpl. destruct (sync (sync_calls w) e b) as [msg|].
  - exists 0%nat. reflexivity.
  - apply run_syncs_shape.
Qed.

(** What a pass did, read off its result. *)
Lemma run_syncs_inv es b (w : World DB) r w1 :
  run_syncs sync es b w = (r, w1) ->
  match r with
  | None =>
      w1 = record_syncs es b w /\
      forall i e, es !! i = Some e -> sync (sync_calls w + i)%nat e b = None
  | Some msg =>
      exists i e,
        es !! i = Some e /\
        sync (sync_calls w + i)%nat e b = Some msg /\
        w1 = record_syncs (take (S i) es) b w
  end.
Proof.
  revert w. induction es as [|e0 es IH]; intros w; simpl.
  - intros [= <- <-]. split; [reflexivity|]. intros i e Hi. discriminate.
  - destruct (sync (sync_calls w) e0 b) as [msg|] eqn:H0.
    + intros [= <- <-]. exists 0%nat, e0. rewrite Nat.add_0_r. auto.
    + intros Hrun. specialize (IH _ Hrun). destruct r as [msg|].
      * destruct IH as (i & e & Hi & Hraise & Hw1).
        exists (S i), e. simpl in Hraise. rewrite Nat.add_succ_r. auto.
      * destruct IH as [Hw1 Hok]. split; [exact Hw1|].
        intros [|i] e Hi.
        -- injection Hi as <-. now rewrite Nat.add_0_r.
        -- rewrite Nat.add_succ_r. now apply Hok.
Qed.

End Passes.

Arguments record_syncs_snoc {DB} es e b w.
Arguments record_syncs_fields {DB} es b w.
Arguments run_syncs_all {DB} sync es b w _.
Arguments run_syncs_raise {DB} sync es b w i e msg _ _ _.
Arguments run_syncs_shape {DB} sync es b w.
Arguments run_syncs_first {DB} sync e es b w.
Arguments run_syncs_inv {DB} sync es b w r w1 _.

Section BlockResolver.

Variables (SNAPSHOT_BLOCK_LAG SNAPSHOT_BLOCK_LAG_STEP : Z) (DB : Type).
Variables (latest : nat -> string + Z) (block_datetime : Z -> Z).
Variable sync : nat -> Entity -> Block -> option string.

#[local] Abbreviation backward' := (backward block_datetime).
#[local] Abbreviation sync_data' :=
  (sync_data SNAPSHOT_BLOCK_LAG SNAPSHOT_BLOCK_LAG_STEP DB
             latest block_datetime sync).

(** One unfolding of [sync_data]. *)
Lemma sync_data_unfold fuel (w : World DB) :
  sync_data' (S fuel) w =
  match latest (head_reads w) with
  | inl e => (Raised e, count_head_read w)
  | inr head =>
      let sync_block := backward' head (snapshotBlockLag (load_config w)) in
      match run_syncs sync sync_order sync_block (count_head_read w) with
      | (Some msg, w1) =>
          if ErrorText.contains ErrorText.lag_marker msg then
            match ErrorText.re_search msg with
            | None => (Raised "'NoneType' object has no attribute 'group'", w1)
            | Some last_synced_block =>
                match latest (head_reads w1) with
                | inl e => (Raised e, count_head_read w1)
                | inr head' =>
                    sync_data' fuel
                      (commit (upsert (set_snapshotBlockLag
                                         (head' - last_synced_block)
                                         (load_config w1))
                                      (count_head_read w1)))
                end
            end
          else (Raised msg, w1)
      | (None, w1) =>
          (Returned sync_block,
           commit (upsert
                     (set_snapshotBlockLag
                        (Z.max (snapshotBlockLag (load_config w)
                                - SNAPSHOT_BLOCK_LAG_STEP) SNAPSHOT_BLOCK_LAG)
                        (set_lastSyncBlock (number sync_block) (load_config w)))
                     w1))
      end
  end.
Proof. reflexivity. Qed.

(** [sync_data] only ever appends to the log of synchroniser calls. *)
Lemma sync_data_log_prefix fuel (w : World DB) :
  sync_log w `prefix_of` sync_log (sync_data' fuel w).2.
Proof.
  revert w. induction fuel as [|fuel IH]; intros w; [reflexivity|].
  rewrite sync_data_unfold.
  destruct (latest (head_reads w)) as [e|head]; [reflexivity|].
  cbv zeta. set (b := backward' head _).
  destruct (run_syncs_shape sync sync_order b (count_head_read w)) as [n Hn].
  destruct (run_syncs sync sync_order b (count_head_read w)) as [r w1] eqn:Hrun.
  simpl in Hn. subst w1.
  destruct (record_syncs_fields (take n sync_order) b (count_head_read w))
    as (H1 & H2 & H3 & H4 & H5 & H6 & H7).
  assert (Hpre : sync_log w `prefix_of`
                 sync_log (record_syncs (take n sync_order) b (count_head_read w))).
  { rewrite H5. simpl. now apply prefix_app_r. }
  destruct r as [msg|]; simpl; [|exact Hpre].
  destruct (ErrorText.contains _ msg); simpl; [|exact Hpre].
  destruct (ErrorText.re_search msg) as [N|]; simpl; [|exact Hpre].
  destruct (latest _) as [e|head']; simpl; [exact Hpre|].
  etransitivity; [exact Hpre|]. etransitivity; [|apply IH]. reflexivity.
Qed.

(** A pass that gets its chain head starts with the [User] call at the
    head minus the lag in force. *)
Lemma sync_data_first_call fuel (w : World DB) head :
  latest (head_reads w) = inr head ->
  (sync_log w ++ [(User, head - snapshotBlockLag (load_config w))])
    `prefix_of` sync_log (sync_data' (S fuel) w).2.
Proof.
  intros Hhead. rewrite sync_data_unfold, Hhead.
  cbv zeta. set (b := backward' head _).
  destruct (run_syncs_first sync User (tail sync_order) b (count_head_read w))
    as [n Hn].
  change (User :: tail sync_order) with sync_order in Hn.
  destruct (run_syncs sync sync_order b (count_head_read w)) as [r w1] eqn:Hrun.
  simpl in Hn. subst w1.
  destruct (record_syncs_fields (take n (tail sync_order)) b
              (record_sync User b (count_head_read w)))
    as (H1 & H2 & H3 & H4 & H5 & H6 & H7).
  set (w1 := record_syncs _ b (record_sync User b (count_head_read w))) in *.
  assert (Hpre : (sync_log w ++ [(User, head - snapshotBlockLag (load_config w))])
                 `prefix_of` sync_log w1).
  { rewrite H5. simpl. now apply prefix_app_r. }
  destruct r as [msg|]; simpl; [|exact Hpre].
  destruct (ErrorText.contains _ msg); simpl; [|exact Hpre].
  destruct (ErrorText.re_search msg) as [N|]; simpl; [|exact Hpre].
  destruct (latest (head_reads w1)) as [e|head']; simpl; [exact Hpre|].
  etransitivity; [exact Hpre|].
  etransitivity; [|apply sync_data_log_prefix]. reflexivity.
Qed.

(** A pass in which the chain head is read and all seven synchroniser calls
    return: what [sync_data] returns and leaves behind. *)
Lemma sync_data_pass_ok fuel (w : World DB) head :
  latest (head_reads w) = inr head ->
  (forall i e, sync_order !! i = Some e ->
     sync (sync_calls w + i)%nat e
          (backward' head (snapshotBlockLag (load_config w))) = None) ->
  let lag := snapshotBlockLag (load_config w) in
  let w1 := record_syncs sync_order (backward' head lag) (count_head_read w) in
  sync_data' (S fuel) w
  = (Returned (backward' head lag),
     commit (upsert (set_snapshotBlockLag
                       (tighten SNAPSHOT_BLOCK_LAG SNAPSHOT_BLOCK_LAG_STEP lag)
                       (set_lastSyncBlock (head - lag) (load_config w))) w1)).
Proof.
  intros Hhead Hok lag w1.
  rewrite sync_data_unfold, Hhead. cbv zeta. fold lag.
  rewrite (run_syncs_all sync sync_order _ (count_head_read w)); [reflexivity|].
  intros i e Hi. now apply Hok.
Qed.

(** Successful passes in a row, from a lag at or above the floor: each takes
    one step off the lag until the floor is reached. *)
Lemma tighten_iter (k : nat) (lag : Z) :
  0 <= SNAPSHOT_BLOCK_LAG_STEP ->
  SNAPSHOT_BLOCK_LAG <= lag ->
  Nat.iter k (tighten SNAPSHOT_BLOCK_LAG SNAPSHOT_BLOCK_LAG_STEP) lag
  = Z.max (lag - Z.of_nat k * SNAPSHOT_BLOCK_LAG_STEP) SNAPSHOT_BLOCK_LAG.
Proof.
  intros Hstep Hfloor. induction k as [|k IH].
  - simpl. lia.
  - rewrite Nat.iter_succ, IH. unfold tighten. nia.
Qed.

(** C9.  A pass in which the chain head is read and all seven synchroniser
    calls return ends [sync_data]: it returns the target block (chain head
    minus the lag the pass started with), persists and commits
    [lastSyncBlock = target], and replaces [snapshotBlockLag] by the maximum
    of the lag minus [SNAPSHOT_BLOCK_LAG_STEP] and the floor
    [SNAPSHOT_BLOCK_LAG]: the new lag is never below the floor, it is the old
    lag minus exactly one step while that stays at or above the floor, and it
    is the floor otherwise. *)
Theorem sync_data_success fuel (w : World DB) head :
  latest (head_reads w) = inr head ->
  (forall i e, sync_order !! i = Some e ->
     sync (sync_calls w + i)%nat e
          (backward' head (snapshotBlockLag (load_config w))) = None) ->
  let lag := snapshotBlockLag (load_config w) in
  let target := head - lag in
  exists w',
    sync_data' (S fuel) w = (Returned (backward' head lag), w') /\
    number (backward' head lag) = target /\
    sync_log w' = sync_log w ++ map (fun e => (e, target)) sync_order /\
    committed_config w' = session_config w' /\
    lastSyncBlock (committed_config w') = Some target /\
    lastSnapshotBlock (committed_config w') = lastSnapshotBlock (load_config w) /\
    snapshotBlockLag (committed_config w')
      = Z.max (lag - SNAPSHOT_BLOCK_LAG_STEP) SNAPSHOT_BLOCK_LAG /\
    SNAPSHOT_BLOCK_LAG <= snapshotBlockLag (committed_config w') /\
    (SNAPSHOT_BLOCK_LAG <= lag - SNAPSHOT_BLOCK_LAG_STEP ->
     snapshotBlockLag (committed_config w') = lag - SNAPSHOT_BLOCK_LAG_STEP) /\
    (lag - SNAPSHOT_BLOCK_LAG_STEP <= SNAPSHOT_BLOCK_LAG ->
     snapshotBlockLag (committed_config w') = SNAPSHOT_BLOCK_LAG).
Proof.
  intros Hhead Hok lag target.
  set (b := backward' head lag).
  destruct (record_syncs_fields sync_order b (count_head_read w))
    as (H1 & H2 & H3 & H4 & H5 & H6 & H7).
  exists (commit (upsert (set_snapshotBlockLag
                            (tighten SNAPSHOT_BLOCK_LAG SNAPSHOT_BLOCK_LAG_STEP
                                     lag)
                            (set_lastSyncBlock (head - lag) (load_config w)))
                         (record_syncs sync_order b (count_head_read w)))).
  split.
  - apply sync_data_pass_ok; assumption.
  - unfold commit, upsert, load_config, tighten in *.
    cbn [committed_config session_config sync_log lastSyncBlock
         lastSnapshotBlock snapshotBlockLag set_snapshotBlockLag
         set_lastSyncBlock].
    fold b. rewrite H5. fold lag.
    repeat split; try reflexivity; try lia.
Qed.


End BlockResolver.


(** ** The snapshot orchestrator *)

(** Sequencing, inverted: a sequence that returns went through a first part
    that returned. *)
Lemma bind_returned {S A B} (m : Run S A) (k : A -> Run S B) s b s' :
  bind m k s = (Returned b, s') ->
  exists a s1, m s = (Returned a, s1) /\ k a s1 = (Returned b, s').
Proof.
  unfold bind. destruct (m s) as [[a| |] s1]; intros H; try discriminate.
  exists a, s1. split; [reflexivity|exact H].
Qed.

Lemma bind_raised {S A B} (m : Run S A) (k : A -> Run S B) s e s' :
  m s = (Raised e, s') -> bind m k s = (Raised e, s').
Proof. unfold bind. now intros ->. Qed.

Section Orchestrator.

Variables (CHAIN_ONLY : bool) (DB : Type).
Variable latest : nat -> string + Z.
Variables (affiliates liquidators : list string) (hedgers : list HedgerContext).
Variable prepare_affiliate_snapshot :
  string -> HedgerContext -> Block -> DB -> outcome unit * DB.
Variable prepare_liquidator_snapshot :
  string -> Block -> DB -> outcome unit * DB.
Variable prepare_hedger_snapshot :
  HedgerContext -> Block -> DB -> outcome unit * DB.
Variable fetch_binance_income_histories :
  HedgerContext -> DB -> outcome unit * DB.
Variable prepare_hedger_binance_snapshot_of :
  HedgerContext -> Block -> DB -> outcome unit * DB.

#[local] Abbreviation do_fetch_snapshot' :=
  (do_fetch_snapshot CHAIN_ONLY DB latest affiliates liquidators hedgers
     prepare_affiliate_snapshot prepare_liquidator_snapshot
     prepare_hedger_snapshot fetch_binance_income_histories
     prepare_hedger_binance_snapshot_of).

Lemma same_cursors_refl (w : World DB) : same_cursors w w.
Proof. repeat split. Qed.

Lemma same_cursors_trans (w1 w2 w3 : World DB) :
  same_cursors w1 w2 -> same_cursors w2 w3 -> same_cursors w1 w3.
Proof.
  intros (A1 & A2 & A3 & A4 & A5) (B1 & B2 & B3 & B4 & B5).
  repeat split; congruence.
Qed.

Lemma keeps_ret {A} (a : A) : keeps_cursors (ret a : M DB A).
Proof. intros w r w' [= <- <-]. apply same_cursors_refl. Qed.

Lemma keeps_bind {A B} (m : M DB A) (k : A -> M DB B) :
  keeps_cursors m -> (forall a, keeps_cursors (k a)) -> keeps_cursors (bind m k).
Proof.
  intros Hm Hk w r w'. unfold bind.
  destruct (m w) as [[a|e|] w1] eqn:Hmw; intros H.
  - eapply same_cursors_trans; [eapply Hm, Hmw|eapply Hk, H].
  - injection H as <- <-. eapply Hm, Hmw.
  - injection H as <- <-. eapply Hm, Hmw.
Qed.

Lemma keeps_invoke i (f : DB -> outcome unit * DB) :
  keeps_cursors (invoke i f).
Proof.
  intros w r w'. unfold invoke. destruct (f (db w)) as [r0 d].
  intros [= <- <-]. repeat split.
Qed.

Lemma keeps_for_each {A} (xs : list A) (body : A -> M DB unit) :
  (forall x, keeps_cursors (body x)) -> keeps_cursors (for_each xs body).
Proof.
  intros Hbody. induction xs as [|x xs IH]; simpl.
  - apply keeps_ret.
  - apply keeps_bind; [apply Hbody|intros _; exact IH].
Qed.

Lemma keeps_hedger_pass b h :
  keeps_cursors (hedger_pass CHAIN_ONLY DB prepare_hedger_snapshot
                   fetch_binance_income_histories
                   prepare_hedger_binance_snapshot_of b h).
Proof.
  unfold hedger_pass. apply keeps_bind; [apply keeps_invoke|intros _].
  destruct (negb CHAIN_ONLY && has_binance_keys h).
  - apply keeps_bind; [apply keeps_invoke|intros _; apply keeps_invoke].
  - apply keeps_ret.
Qed.

(** A stale cursor: what [do_fetch_snapshot] does. *)
Lemma do_fetch_snapshot_when_stale b (w : World DB) :
  stale (load_config w) b = true ->
  exists e,
    do_fetch_snapshot' b w = (Raised e, count_head_read w).
Proof.
  intros Hstale. unfold do_fetch_snapshot. rewrite Hstale.
  unfold bind at 1. unfold refresh_endpoints.
  destruct (latest (head_reads w)) as [e|head].
  - exists e. reflexivity.
  - eexists. reflexivity.
Qed.

(** A cursor that is not stale: the guards let the run through, and a run
    that returns has moved [lastSnapshotBlock] to the block. *)
Lemma do_fetch_snapshot_returned b (w w' : World DB) :
  do_fetch_snapshot' b w = (Returned tt, w') ->
  stale (load_config w) b = false /\
  session_config w' = set_lastSnapshotBlock (number b) (session_config w) /\
  committed_config w' = session_config w' /\
  head_reads w' = head_reads w /\
  sync_calls w' = sync_calls w /\
  sync_log w' = sync_log w.
Proof.
  intros Hrun.
  destruct (stale (load_config w) b) eqn:Hstale.
  { destruct (do_fetch_snapshot_when_stale b w Hstale) as [e He].
    rewrite He in Hrun. discriminate. }
  split; [reflexivity|].
  unfold do_fetch_snapshot in Hrun. rewrite Hstale in Hrun.
  apply bind_returned in Hrun as (ua & wa & Ha & Hrun).
  injection Ha as _ Ha. subst wa.
  apply bind_returned in Hrun as (ub & wb & Hb & Hrun).
  injection Hb as _ Hb. subst wb.
  apply bind_returned in Hrun as (u1 & w1 & Haff & Hrun).
  apply bind_returned in Hrun as (u2 & w2 & Hliq & Hrun).
  apply bind_returned in Hrun as (u3 & w3 & Hhed & Hrun).
  injection Hrun as Hrun. subst w'.
  assert (Hsame : same_cursors w w3).
  { eapply same_cursors_trans; [|eapply same_cursors_trans].
    - eapply keeps_for_each, Haff. intros a.
      apply keeps_for_each. intros h. apply keeps_invoke.
    - eapply keeps_for_each, Hliq. intros l. apply keeps_invoke.
    - eapply keeps_for_each, Hhed. intros h. apply keeps_hedger_pass. }
  destruct Hsame as (A1 & A2 & A3 & A4 & A5).
  unfold load_config. cbn. repeat split; assumption.
Qed.

(** C3, as the code has it.  When [lastSnapshotBlock] is set to a non-zero
    block that is not below the resolved block, [do_fetch_snapshot] raises
    before any reconciler is invoked: nothing is written to the session and
    the configuration row is left as it was. *)
Theorem do_fetch_snapshot_stale b (w : World DB) n :
  lastSnapshotBlock (load_config w) = Some n ->
  n <> 0 ->
  number b <= n ->
  exists e w',
    do_fetch_snapshot' b w = (Raised e, w') /\
    invoked w' = invoked w /\
    db w' = db w /\
    session_config w' = session_config w /\
    committed_config w' = committed_config w.
Proof.
  intros Hlast Hn Hle.
  assert (Hstale : stale (load_config w) b = true).
  { unfold stale, truthy. rewrite Hlast.
    apply andb_true_intro. split.
    - apply negb_true_iff, Z.eqb_neq, Hn.
    - apply Z.leb_le, Hle. }
  destruct (do_fetch_snapshot_when_stale b w Hstale) as [e He].
  exists e, (count_head_read w). split; [exact He|]. repeat split.
Qed.

End Orchestrator.

(** A pass at chain head 1050 with lag 20, floor 10 and step 5: the cursor
    moves to block 1030 and the lag to 15. *)
Lemma sync_data_success_scenario :
  let w := Scenario.fresh tt (Scenario.config (Some 900) (Some 900) 20) in
  exists w',
    sync_data Scenario.floor Scenario.step unit Scenario.head_1050
              Scenario.block_datetime Scenario.indexer_caught_up 1%nat w
    = (Returned {| number := 1030; datetime := 12360 |}, w') /\
    lastSyncBlock (committed_config w') = Some 1030 /\
    snapshotBlockLag (committed_config w') = 15.
Proof.
  intros w.
  destruct (sync_data_success Scenario.floor Scenario.step unit
              Scenario.head_1050 Scenario.block_datetime
              Scenario.indexer_caught_up 0%nat w 1050)
    as (w' & Hrun & _ & _ & _ & Hsync & _ & Hlag & _).
  - reflexivity.
  - reflexivity.
  - exists w'. split; [exact Hrun|]. split; [exact Hsync|exact Hlag].
Defined.

(** Scenario 5: [lastSnapshotBlock = 500] and the resolved block is 500. *)
Lemma do_fetch_snapshot_stale_scenario :
  let w := Scenario.fresh 0%nat (Scenario.config (Some 500) (Some 500) 20) in
  let b := {| number := 500; datetime := 6000 |} in
  exists e w',
    Scenario.snapshots Scenario.head_1050 b w = (Raised e, w') /\
    invoked w' = [] /\
    db w' = 0%nat /\
    session_config w' = session_config w /\
    committed_config w' = committed_config w.
Proof.
  intros w b.
  apply (do_fetch_snapshot_stale false nat Scenario.head_1050
           ["affiliate"] ["liquidator"] [Scenario.hedger]
           (fun _ _ _ => Scenario.writes_row) (fun _ _ => Scenario.writes_row)
           (fun _ _ => Scenario.writes_row) (fun _ => Scenario.writes_nothing)
           (fun _ _ => Scenario.writes_row) b w 500).
  - reflexivity.
  - lia.
  - simpl. lia.
Defined.

(** C3 fails for a zero cursor: with [lastSnapshotBlock = 0] and the resolved
    block 0 the cursor is not below the block, yet the guard is skipped,
    every reconciler runs and four snapshot rows are written. *)
Lemma do_fetch_snapshot_zero_cursor :
  let w := Scenario.fresh 0%nat (Scenario.config None (Some 0) 20) in
  let b := {| number := 0; datetime := 0 |} in
  lastSnapshotBlock (load_config w) = Some 0 /\
  number b <= 0 /\
  exists w',
    Scenario.snapshots Scenario.head_1050 b w = (Returned tt, w') /\
    invoked w' = [AffiliateSnapshotOf "affiliate" "hedger" b;
                  LiquidatorSnapshotOf "liquidator" b;
                  HedgerSnapshotOf "hedger" b;
                  BinanceIncomeHistoriesOf "hedger";
                  HedgerBinanceSnapshotOf "hedger" b] /\
    db w' = 4%nat.
Proof.
  intros w b. split; [reflexivity|]. split; [simpl; lia|].
  eexists. split; [reflexivity|]. split; reflexivity.
Qed.

(** ** The exchange reconciler *)

(** Sums over the ledger. *)
Lemma sum_amount_nil keep : sum_amount keep [] = 0%Q.
Proof. reflexivity. Qed.

Lemma sum_amount_cons keep r rows :
  (sum_amount keep (r :: rows)
   == (if keep r then BinanceIncome.amount r else 0) + sum_amount keep rows)%Q.
Proof.
  unfold sum_amount. simpl. destruct (keep r); simpl; ring.
Qed.

(** Two [where] clauses that exclude each other: the sum over their union is
    the sum of the two sums. *)
Lemma sum_amount_disjoint keep1 keep2 rows :
  (forall r, keep1 r && keep2 r = false) ->
  (sum_amount (fun r => keep1 r || keep2 r) rows
   == sum_amount keep1 rows + sum_amount keep2 rows)%Q.
Proof.
  intros Hdisj. induction rows as [|r rows IH].
  - rewrite !sum_amount_nil. ring.
  - rewrite !sum_amount_cons, IH. specialize (Hdisj r).
    destruct (keep1 r), (keep2 r); simpl in *; try discriminate; ring.
Qed.

Lemma sum_amount_ext keep1 keep2 rows :
  (forall r, keep1 r = keep2 r) ->
  sum_amount keep1 rows = sum_amount keep2 rows.
Proof.
  intros Hext. unfold sum_amount. f_equal. f_equal.
  induction rows as [|r rows IH]; simpl; [reflexivity|].
  rewrite Hext, IH. reflexivity.
Qed.

(** Scaling by [10 ** 18] through the sign test is plain scaling. *)
Lemma scale_preserves_sign (t : Q) :
  ((if negb (Qle_bool 0 t) then - (Qabs t * e18) else t * e18) == t * e18)%Q.
Proof.
  destruct (Qle_bool 0 t) eqn:Hsign; simpl; [reflexivity|].
  assert (Hneg : (t <= 0)%Q).
  { destruct (Qlt_le_dec 0 t) as [Hlt|Hle]; [|exact Hle].
    apply Qlt_le_weak, Qle_bool_iff in Hlt. congruence. }
  rewrite (Qabs_neg t Hneg). ring.
Qed.

Lemma e18_nonzero : ~ (e18 == 0)%Q.
Proof. unfold e18, Qeq. simpl. lia. Qed.

Lemma scaled_zero (q : Q) : (q * e18 == 0)%Q <-> (q == 0)%Q.
Proof.
  split; intros H.
  - destruct (Qmult_integral _ _ H) as [Hq|He]; [exact Hq|].
    now destruct e18_nonzero.
  - rewrite H. ring.
Qed.

Section ReconcilerFacts.

Local Open Scope Q_scope.

Variables (tenant : string) (IGNORE_BINANCE_TRADE_VOLUME : bool).
Variables (is_for_past : Block -> bool) (show_datetime : Z -> string).
Variable futures_account : string + BinanceAccount.
Variable futures_position_information : string + list Position.
Variable real_time_funding_rate : string -> string + Q.
Variable calculate_binance_trade_volume : HedgerContext -> Block -> string + Q.

#[local] Abbreviation prepare' :=
  (prepare_hedger_binance_snapshot tenant IGNORE_BINANCE_TRADE_VOLUME
     is_for_past show_datetime futures_account futures_position_information
     real_time_funding_rate calculate_binance_trade_volume).
#[local] Abbreviation account_metrics' :=
  (account_metrics tenant is_for_past show_datetime futures_account).
#[local] Abbreviation trade_volume' :=
  (trade_volume IGNORE_BINANCE_TRADE_VOLUME calculate_binance_trade_volume).
#[local] Abbreviation transfers_row' := (transfers_row tenant).
#[local] Abbreviation binance_next_funding_fee' :=
  (binance_next_funding_fee is_for_past futures_position_information
     real_time_funding_rate).

(** The steps of a reconciliation that returns. *)
Lemma prepare_returned h b s row s' :
  prepare' h b s = (Returned row, s') ->
  exists m s1 volume s2 next s3,
    account_metrics' h b s = (Returned m, s1) /\
    trade_volume' h b s1 = (Returned volume, s2) /\
    binance_next_funding_fee' b s2 = (Returned next, s3) /\
    row = assemble tenant
            (deposit_baseline
               (sum_amount (transfer_row tenant "TRANSFER" h b)
                           (binance_income s))
               (sum_amount (transfer_row tenant "INTERNAL_TRANSFER" h b)
                           (binance_income s)) h)
            m volume
            (sum_amount (paid_funding_row tenant b) (binance_income s))
            (sum_amount (received_funding_row tenant b) (binance_income s))
            next h b /\
    s' = save row s3.
Proof.
  unfold prepare_hedger_binance_snapshot. intros Hrun.
  apply bind_returned in Hrun as (m & s1 & Hm & Hrun).
  apply bind_returned in Hrun as (volume & s2 & Hv & Hrun).
  apply bind_returned in Hrun as (next & s3 & Hn & Hrun).
  injection Hrun as Hrow Hs'.
  exists m, s1, volume, s2, next, s3. subst row. repeat split; auto.
Qed.

(** The deposit baseline of the two sums. *)
Lemma deposit_baseline_eq h b rows :
  (deposit_baseline
     (sum_amount (transfer_row tenant "TRANSFER" h b) rows)
     (sum_amount (transfer_row tenant "INTERNAL_TRANSFER" h b) rows) h
   == sum_amount (transfers_row' h b) rows * e18 + binance_deposit_diff h)%Q.
Proof.
  unfold deposit_baseline. rewrite scale_preserves_sign.
  rewrite <- (sum_amount_disjoint (transfer_row tenant "TRANSFER" h b)
                (transfer_row tenant "INTERNAL_TRANSFER" h b)).
  - rewrite (sum_amount_ext _ (transfers_row' h b)); [reflexivity|].
    intros r. unfold transfer_row, transfers_row.
    destruct (BinanceIncome.timestamp r <=? datetime b),
      (String.eqb (BinanceIncome.type r) "TRANSFER"),
      (String.eqb (BinanceIncome.type r) "INTERNAL_TRANSFER"),
      (String.eqb (BinanceIncome.tenant r) tenant),
      (String.eqb (BinanceIncome.hedger r) (hedger_name h)); reflexivity.
  - intros r. unfold transfer_row.
    destruct (String.eqb_spec (BinanceIncome.type r) "TRANSFER") as [Ht|Ht].
    + rewrite Ht. simpl. rewrite !andb_false_r. reflexivity.
    + rewrite !andb_false_r. reflexivity.
Qed.

Lemma same_rows_refl s : same_rows s s.
Proof. repeat split; reflexivity. Qed.

Lemma same_rows_trans s1 s2 s3 :
  same_rows s1 s2 -> same_rows s2 s3 -> same_rows s1 s3.
Proof.
  intros (A1 & A2 & A3 & A4 & A5) (B1 & B2 & B3 & B4 & B5).
  repeat split; try congruence. now transitivity (api_log s2).
Qed.

Lemma rows_ret {A} (a : A) : keeps_rows (ret a).
Proof. intros s r s' [= <- <-]. apply same_rows_refl. Qed.

Lemma rows_raise {A} e : keeps_rows (raise e : Run Session A).
Proof. intros s r s' [= <- <-]. apply same_rows_refl. Qed.

Lemma rows_bind {A B} (m : Run Session A) (k : A -> Run Session B) :
  keeps_rows m -> (forall a, keeps_rows (k a)) -> keeps_rows (bind m k).
Proof.
  intros Hm Hk s r s'. unfold bind.
  destruct (m s) as [[a|e|] s1] eqn:Hms; intros H.
  - eapply same_rows_trans; [eapply Hm, Hms|eapply Hk, H].
  - injection H as <- <-. eapply Hm, Hms.
  - injection H as <- <-. eapply Hm, Hms.
Qed.

Lemma rows_call {A} c (answer : string + A) : keeps_rows (call c answer).
Proof.
  intros s r s'. unfold call.
  destruct answer; intros [= <- <-]; repeat split; now apply prefix_app_r.
Qed.

Lemma rows_item m key : keeps_rows (item m key).
Proof.
  unfold item. destruct (_ !! _); [apply rows_ret|apply rows_raise].
Qed.

Lemma rows_decimal_div x y : keeps_rows (decimal_div x y).
Proof.
  unfold decimal_div. destruct (Qeq_bool y 0); [|apply rows_ret].
  destruct (Qeq_bool x 0); apply rows_raise.
Qed.

Lemma rows_account_metrics h b : keeps_rows (account_metrics' h b).
Proof.
  unfold account_metrics. destruct (negb (is_for_past b)).
  - unfold live_metrics.
    apply rows_bind; [apply rows_call|intros acct].
    apply rows_bind; [apply rows_decimal_div|intros q]. apply rows_ret.
  - intros s r s'. unfold fallback_metrics.
    destruct (scalar tenant b (stats_bot_message s)) as [m|];
      [|apply rows_raise].
    repeat (apply rows_bind; [apply rows_item|intros ?]). apply rows_ret.
Qed.

Lemma rows_trade_volume h b : keeps_rows (trade_volume' h b).
Proof.
  unfold trade_volume. destruct IGNORE_BINANCE_TRADE_VOLUME; [apply rows_ret|].
  apply rows_bind; [apply rows_call|intros v; apply rows_ret].
Qed.

Lemma rows_next_funding_fee ps acc :
  keeps_rows (next_funding_fee real_time_funding_rate ps acc).
Proof.
  revert acc. induction ps as [|p ps IH]; intros acc; simpl.
  - apply rows_ret.
  - apply rows_bind; [apply rows_call|intros q; apply IH].
Qed.

Lemma rows_binance_next_funding_fee b :
  keeps_rows (binance_next_funding_fee' b).
Proof.
  unfold binance_next_funding_fee. destruct (negb (is_for_past b));
    [|apply rows_ret].
  apply rows_bind; [apply rows_call|intros ps].
  apply rows_bind; [apply rows_next_funding_fee|intros fee; apply rows_ret].
Qed.

(** A reconciliation that does not return has added no row to the session;
    one that returns has added exactly its row. *)
Lemma prepare_rows h b s r s' :
  prepare' h b s = (r, s') ->
  binance_income s' = binance_income s /\
  stats_bot_message s' = stats_bot_message s /\
  stored s' = stored s /\
  new s' = match r with
           | Returned row => new s ++ [row]
           | _ => new s
           end /\
  api_log s `prefix_of` api_log s'.
Proof.
  unfold prepare_hedger_binance_snapshot, bind.
  destruct (account_metrics' h b s) as [[m|e|] s1] eqn:Hm;
    pose proof (rows_account_metrics h b s _ _ Hm) as (A1 & A2 & A3 & A4 & A5);
    try (intros [= <- <-]; repeat split; assumption).
  destruct (trade_volume' h b s1) as [[v|e|] s2] eqn:Hv;
    pose proof (rows_trade_volume h b s1 _ _ Hv) as (B1 & B2 & B3 & B4 & B5);
    try (intros [= <- <-]; repeat split; try congruence;
         now transitivity (api_log s1)).
  destruct (binance_next_funding_fee' b s2) as [[n|e|] s3] eqn:Hn;
    pose proof (rows_binance_next_funding_fee b s2 _ _ Hn)
      as (C1 & C2 & C3 & C4 & C5);
    try (intros [= <- <-]; repeat split; try congruence;
         transitivity (api_log s1); [assumption|];
         now transitivity (api_log s2)).
  intros [= <- <-]. simpl. repeat split; try congruence.
  transitivity (api_log s1); [assumption|]. now transitivity (api_log s2).
Qed.

(** *** The steps, inverted *)

Lemma item_inv m key s r s' :
  item m key s = (r, s') ->
  s' = s /\
  forall v, r = Returned v -> StatsBotMessage.content m !! key = Some v.
Proof.
  unfold item. destruct (StatsBotMessage.content m !! key) as [v0|];
    intros [= <- <-]; (split; [reflexivity|]); intros v [= <-]; reflexivity.
Qed.

Lemma item_returned m key s v s' :
  item m key s = (Returned v, s') ->
  s' = s /\ StatsBotMessage.content m !! key = Some v.
Proof.
  intros H. destruct (item_inv _ _ _ _ _ H) as [-> Hv]. split; auto.
Qed.

Lemma live_metrics_log h s r s1 :
  live_metrics futures_account h s = (r, s1) -> s1 = log_call FuturesAccount s.
Proof.
  unfold live_metrics, bind, call.
  destruct futures_account as [e|acct]; [now intros [= <- <-]|].
  unfold decimal_div, raise, ret.
  destruct (Qeq_bool (totalMarginBalance acct * e18) 0);
    [destruct (Qeq_bool (totalMaintMargin acct * e18) 0)|];
    now intros [= <- <-].
Qed.

Lemma live_metrics_returned h s m s1 :
  live_metrics futures_account h s = (Returned m, s1) ->
  exists acct,
    futures_account = inr acct /\
    ~ (totalMarginBalance acct == 0)%Q /\
    m_maintenance_margin m = (totalMaintMargin acct * e18)%Q /\
    m_total_balance m = (totalMarginBalance acct * e18)%Q /\
    m_account_health_ratio m
      = (100 - (m_maintenance_margin m / m_total_balance m) * 100)%Q /\
    m_cross_upnl m = (totalCrossUnPnl acct * e18)%Q /\
    m_av_balance m = (availableBalance acct * e18)%Q /\
    m_total_initial_margin m = (totalInitialMargin acct * e18)%Q /\
    m_max_withdraw_amount m = (maxWithdrawAmount acct * e18)%Q /\
    m_max_open_interest m
      = (hedger_max_open_interest_ratio h * m_max_withdraw_amount m)%Q.
Proof.
  unfold live_metrics, bind, call.
  destruct futures_account as [e|acct]; [discriminate|].
  unfold decimal_div, raise, ret.
  destruct (Qeq_bool (totalMarginBalance acct * e18) 0) eqn:Hzero.
  { destruct (Qeq_bool (totalMaintMargin acct * e18) 0); discriminate. }
  cbv beta iota. intros [= <- <-]. exists acct. split; [reflexivity|]. split.
  - intros Hb. apply Qeq_bool_neq in Hzero. apply Hzero, scaled_zero, Hb.
  - repeat split.
Qed.

Lemma live_metrics_zero h s acct :
  futures_account = inr acct ->
  (totalMarginBalance acct == 0)%Q ->
  exists e,
    live_metrics futures_account h s = (Raised e, log_call FuturesAccount s) /\
    (e = "[<class 'decimal.DivisionByZero'>]" \/
     e = "[<class 'decimal.DivisionUndefined'>]").
Proof.
  intros Hacct Hzero. unfold live_metrics, bind, call. rewrite Hacct.
  unfold decimal_div, raise, ret.
  assert (Hb : Qeq_bool (totalMarginBalance acct * e18) 0 = true)
    by apply Qeq_bool_iff, scaled_zero, Hzero.
  rewrite Hb. destruct (Qeq_bool (totalMaintMargin acct * e18) 0);
    eexists; (split; [reflexivity|]); auto.
Qed.

Lemma live_metrics_nonzero h s acct :
  futures_account = inr acct ->
  ~ (totalMarginBalance acct == 0)%Q ->
  exists m,
    live_metrics futures_account h s = (Returned m, log_call FuturesAccount s) /\
    m_account_health_ratio m
      = (100 - (totalMaintMargin acct * e18 / (totalMarginBalance acct * e18))
               * 100)%Q.
Proof.
  intros Hacct Hnz. unfold live_metrics, bind, call. rewrite Hacct.
  unfold decimal_div, raise, ret.
  destruct (Qeq_bool (totalMarginBalance acct * e18) 0) eqn:Hb.
  - apply Qeq_bool_iff in Hb. apply -> scaled_zero in Hb. contradiction.
  - eexists. split; reflexivity.
Qed.

Lemma fallback_row_window b m :
  fallback_row tenant b m = true <-> in_window tenant b m.
Proof.
  unfold fallback_row, in_window.
  rewrite !andb_true_iff, !Z.leb_le, String.eqb_eq. tauto.
Qed.

(** [scalar] returns the first row of the table that the [where] clause
    keeps. *)
Lemma scalar_first b rows msg :
  scalar tenant b rows = Some msg ->
  exists before after,
    rows = before ++ msg :: after /\
    Forall (fun m => fallback_row tenant b m = false) before /\
    in_window tenant b msg.
Proof.
  unfold scalar. induction rows as [|m rows IH]; simpl; [discriminate|].
  destruct (fallback_row tenant b m) eqn:Hm.
  - intros [= <-]. exists [], rows.
    split; [reflexivity|]. split; [constructor|].
    now apply fallback_row_window.
  - intros Hfind. destruct (IH Hfind) as (before & after & -> & Hbefore & Hin).
    exists (m :: before), after.
    split; [reflexivity|]. split; [now constructor|exact Hin].
Qed.

Lemma scalar_none b rows :
  (forall m, In m rows -> ~ in_window tenant b m) ->
  scalar tenant b rows = None.
Proof.
  intros Hnone. unfold scalar. induction rows as [|m rows IH]; simpl;
    [reflexivity|].
  destruct (fallback_row tenant b m) eqn:Hm.
  - apply fallback_row_window in Hm. destruct (Hnone m); simpl; auto.
  - apply IH. intros m' Hin. apply Hnone. now right.
Qed.

Lemma fallback_metrics_returned h b s m s1 :
  fallback_metrics tenant show_datetime h b s = (Returned m, s1) ->
  s1 = s /\
  exists msg,
    scalar tenant b (stats_bot_message s) = Some msg /\
    StatsBotMessage.content msg !! "Total Maint. Margin"
      = Some (m_maintenance_margin m) /\
    StatsBotMessage.content msg !! "Total Margin Balance"
      = Some (m_total_balance m) /\
    StatsBotMessage.content msg !! "Health Ratio"
      = Some (m_account_health_ratio m) /\
    StatsBotMessage.content msg !! "Total Cross UnPnl"
      = Some (m_cross_upnl m) /\
    StatsBotMessage.content msg !! "Available Balance"
      = Some (m_av_balance m) /\
    StatsBotMessage.content msg !! "Total Initial Margin"
      = Some (m_total_initial_margin m) /\
    StatsBotMessage.content msg !! "Max Withdraw Amount"
      = Some (m_max_withdraw_amount m) /\
    m_max_open_interest m
      = (hedger_max_open_interest_ratio h * m_max_withdraw_amount m)%Q.
Proof.
  unfold fallback_metrics.
  destruct (scalar tenant b (stats_bot_message s)) as [msg|]; [|discriminate].
  intros Hrun.
  apply bind_returned in Hrun as (v1 & t1 & H1 & Hrun).
  apply item_returned in H1 as [-> H1].
  apply bind_returned in Hrun as (v2 & t2 & H2 & Hrun).
  apply item_returned in H2 as [-> H2].
  apply bind_returned in Hrun as (v3 & t3 & H3 & Hrun).
  apply item_returned in H3 as [-> H3].
  apply bind_returned in Hrun as (v4 & t4 & H4 & Hrun).
  apply item_returned in H4 as [-> H4].
  apply bind_returned in Hrun as (v5 & t5 & H5 & Hrun).
  apply item_returned in H5 as [-> H5].
  apply bind_returned in Hrun as (v6 & t6 & H6 & Hrun).
  apply item_returned in H6 as [-> H6].
  apply bind_returned in Hrun as (v7 & t7 & H7 & Hrun).
  apply item_returned in H7 as [-> H7].
  injection Hrun as <- <-. split; [reflexivity|].
  exists msg. repeat split; assumption.
Qed.

Lemma trade_volume_returned h b s v s' :
  trade_volume' h b s = (Returned v, s') ->
  api_log s' = api_log s
               ++ (if IGNORE_BINANCE_TRADE_VOLUME then [] else [TradeVolume]).
Proof.
  unfold trade_volume. destruct IGNORE_BINANCE_TRADE_VOLUME.
  - intros [= <- <-]. now rewrite app_nil_r.
  - unfold bind, call.
    destruct (calculate_binance_trade_volume h b); [discriminate|].
    now intros [= <- <-].
Qed.

Lemma next_funding_fee_returned ps acc s fee s' :
  next_funding_fee real_time_funding_rate ps acc s = (Returned fee, s') ->
  (fee == acc + fold_right Qplus 0
                  (map (fun p => (-1) * notional p
                                 * rate_of real_time_funding_rate (symbol p)
                                 * e18) ps))%Q /\
  api_log s' = api_log s ++ map (fun p => RealTimeFundingRate (symbol p)) ps.
Proof.
  revert acc s. induction ps as [|p ps IH]; intros acc s; simpl.
  - intros [= <- <-]. split; [ring|now rewrite app_nil_r].
  - unfold bind at 1. unfold call.
    destruct (real_time_funding_rate (symbol p)) as [e|rate] eqn:Hrate;
      [discriminate|].
    assert (Hp : rate_of real_time_funding_rate (symbol p) = rate)
      by (unfold rate_of; now rewrite Hrate).
    intros Hrun. apply IH in Hrun as [Hfee Hlog]. split.
    + rewrite Hfee, Hp. ring.
    + rewrite Hlog. simpl. now rewrite <- app_assoc.
Qed.

Lemma binance_next_funding_fee_live b s next s' :
  is_for_past b = false ->
  binance_next_funding_fee' b s = (Returned next, s') ->
  exists ps fee,
    futures_position_information = inr ps /\
    next = Some fee /\
    (fee == funding_fee_sum real_time_funding_rate ps)%Q /\
    api_log s' = api_log s
                 ++ FuturesPositionInformation
                    :: map (fun p => RealTimeFundingRate (symbol p))
                           (List.filter is_open ps).
Proof.
  intros Hlive. unfold binance_next_funding_fee. rewrite Hlive. simpl.
  intros Hrun. apply bind_returned in Hrun as (ps & s1 & Hps & Hrun).
  unfold call in Hps.
  destruct futures_position_information as [e|ps0]; [discriminate|].
  injection Hps as <- <-.
  apply bind_returned in Hrun as (fee & s2 & Hfee & Hrun).
  injection Hrun as <- <-.
  apply next_funding_fee_returned in Hfee as [Hfee Hlog].
  exists ps0, fee. repeat split.
  - rewrite Hfee. unfold funding_fee_sum. ring.
  - rewrite Hlog. simpl. now rewrite <- app_assoc.
Qed.


(** C10.  For a live block, once the account endpoint has answered, the
    health ratio divides by the scaled total margin balance without a
    zero check: when the reported [totalMarginBalance] is zero the
    reconciliation raises the division error right after the account call
    and adds no snapshot to the session; when it is not zero the division
    is defined and the ratio is [100 - (margin / balance) * 100]. *)
Theorem health_ratio_division h b s acct :
  is_for_past b = false ->
  futures_account = inr acct ->
  (totalMarginBalance acct == 0 ->
   exists e,
     prepare' h b s = (Raised e, log_call FuturesAccount s) /\
     (e = "[<class 'decimal.DivisionByZero'>]" \/
      e = "[<class 'decimal.DivisionUndefined'>]") /\
     new (log_call FuturesAccount s) = new s) /\
  (~ totalMarginBalance acct == 0 ->
   exists m,
     account_metrics' h b s = (Returned m, log_call FuturesAccount s) /\
     m_account_health_ratio m
     = 100 - (totalMaintMargin acct * e18 / (totalMarginBalance acct * e18))
             * 100).
Proof.
  intros Hlive Hacct. split.
  - intros Hzero.
    destruct (live_metrics_zero h s acct Hacct Hzero) as (e & Hrun & He).
    exists e. split; [|split; [exact He|reflexivity]].
    unfold prepare_hedger_binance_snapshot. apply bind_raised.
    unfold account_metrics. rewrite Hlive. exact Hrun.
  - intros Hnz. unfold account_metrics. rewrite Hlive.
    now apply live_metrics_nonzero.
Qed.



End ReconcilerFacts.

(** A pair whose outcome is [Returned a] is that outcome with its state. *)
Lemma returned_inv {A S} (r : outcome A * S) (a : A) :
  r.1 = Returned a -> r = (Returned a, r.2).
Proof. destruct r as [o s]. simpl. now intros ->. Qed.


(** A live account with a zero margin balance fails at the division; one
    with a balance of 200 has a health ratio of 95. *)
Lemma health_ratio_division_scenario :
  (exists e,
     Scenario.reconcile 0%Q Scenario.live_block
       (Scenario.session Scenario.ledger [])
     = (Raised e, log_call FuturesAccount (Scenario.session Scenario.ledger [])))
  /\
  (exists m,
     account_metrics "tenant" Scenario.is_for_past Scenario.show_datetime
       (inr (Scenario.account 200%Q)) Scenario.hedger Scenario.live_block
       (Scenario.session Scenario.ledger [])
     = (Returned m, log_call FuturesAccount (Scenario.session Scenario.ledger []))
     /\ (m_account_health_ratio m == 95)%Q).
Proof.
  split.
  - destruct (health_ratio_division "tenant" false Scenario.is_for_past
                Scenario.show_datetime (inr (Scenario.account 0%Q))
                (inr Scenario.positions) Scenario.funding_rate
                (fun _ _ => inr 7%Q) Scenario.hedger Scenario.live_block
                (Scenario.session Scenario.ledger []) (Scenario.account 0%Q)
                eq_refl eq_refl) as [Hzero _].
    destruct Hzero as (e & Hrun & _); [reflexivity|].
    exists e. exact Hrun.
  - destruct (health_ratio_division "tenant" false Scenario.is_for_past
                Scenario.show_datetime (inr (Scenario.account 200%Q))
                (inr Scenario.positions) Scenario.funding_rate
                (fun _ _ => inr 7%Q) Scenario.hedger Scenario.live_block
                (Scenario.session Scenario.ledger []) (Scenario.account 200%Q)
                eq_refl eq_refl) as [_ Hnz].
    destruct Hnz as (m & Hrun & Hratio); [vm_compute; discriminate|].
    exists m. split; [exact Hrun|]. rewrite Hratio. vm_compute. reflexivity.
Defined.





(** C7 at a ledger with two hedgers of one tenant.  The funding fees of
    hedger [hedger] are -3 paid and 5 received; its snapshot reports -10
    and 16, the sums over both hedgers. *)
Theorem funding_fee_counts_other_hedgers :
  exists row s',
    Scenario.reconcile 200%Q Scenario.live_block
      (Scenario.session Scenario.ledger_two_hedgers [])
    = (Returned row, s') /\
    (HedgerBinanceSnapshot.binance_paid_funding_fee row == -10)%Q /\
    (HedgerBinanceSnapshot.binance_received_funding_fee row == 16)%Q /\
    (sum_amount (hedger_paid_funding_row "tenant" Scenario.hedger
                   Scenario.live_block) Scenario.ledger_two_hedgers == -3)%Q /\
    (sum_amount (hedger_received_funding_row "tenant" Scenario.hedger
                   Scenario.live_block) Scenario.ledger_two_hedgers == 5)%Q.
Proof.
  eexists _, _. split; [vm_compute; reflexivity|].
  repeat split; vm_compute; reflexivity.
Qed.

(** ** Saving and flushing snapshot rows *)

Section FlushFacts.

Context {K : Type} `{EqDecision K}.
Variable primary_key : HedgerBinanceSnapshot.t -> K.

Lemma insert_rows_app rows1 rows2 table :
  insert_rows primary_key (rows1 ++ rows2) table
  = match insert_rows primary_key rows1 table with
    | Some table' => insert_rows primary_key rows2 table'
    | None => None
    end.
Proof.
  revert table. induction rows1 as [|r rows1 IH]; intros table; simpl;
    [reflexivity|].
  destruct (insert_row primary_key r table); [apply IH|reflexivity].
Qed.


End FlushFacts.



(** ** Monotonicity of the cursors *)

Section Monotonicity.

Variables (SNAPSHOT_BLOCK_LAG SNAPSHOT_BLOCK_LAG_STEP : Z).
Variables (CHAIN_ONLY : bool) (DB : Type).
Variables (latest : nat -> string + Z) (block_datetime : Z -> Z).
Variable sync : nat -> Entity -> Block -> option string.
Variables (affiliates liquidators : list string) (hedgers : list HedgerContext).
Variable prepare_affiliate_snapshot :
  string -> HedgerContext -> Block -> DB -> outcome unit * DB.
Variable prepare_liquidator_snapshot :
  string -> Block -> DB -> outcome unit * DB.
Variable prepare_hedger_snapshot :
  HedgerContext -> Block -> DB -> outcome unit * DB.
Variable fetch_binance_income_histories :
  HedgerContext -> DB -> outcome unit * DB.
Variable prepare_hedger_binance_snapshot_of :
  HedgerContext -> Block -> DB -> outcome unit * DB.

#[local] Abbreviation backward' := (backward block_datetime).
#[local] Abbreviation sync_data' :=
  (sync_data SNAPSHOT_BLOCK_LAG SNAPSHOT_BLOCK_LAG_STEP DB
             latest block_datetime sync).
#[local] Abbreviation do_fetch_snapshot' :=
  (do_fetch_snapshot CHAIN_ONLY DB latest affiliates liquidators hedgers
     prepare_affiliate_snapshot prepare_liquidator_snapshot
     prepare_hedger_snapshot fetch_binance_income_histories
     prepare_hedger_binance_snapshot_of).
#[local] Abbreviation fetch_snapshot' :=
  (fetch_snapshot SNAPSHOT_BLOCK_LAG SNAPSHOT_BLOCK_LAG_STEP CHAIN_ONLY DB
     latest block_datetime sync affiliates liquidators hedgers
     prepare_affiliate_snapshot prepare_liquidator_snapshot
     prepare_hedger_snapshot fetch_binance_income_histories
     prepare_hedger_binance_snapshot_of).
#[local] Abbreviation successful_run' :=
  (successful_run SNAPSHOT_BLOCK_LAG SNAPSHOT_BLOCK_LAG_STEP CHAIN_ONLY DB
     latest block_datetime sync affiliates liquidators hedgers
     prepare_affiliate_snapshot prepare_liquidator_snapshot
     prepare_hedger_snapshot fetch_binance_income_histories
     prepare_hedger_binance_snapshot_of).
#[local] Abbreviation successful_runs' :=
  (successful_runs SNAPSHOT_BLOCK_LAG SNAPSHOT_BLOCK_LAG_STEP CHAIN_ONLY DB
     latest block_datetime sync affiliates liquidators hedgers
     prepare_affiliate_snapshot prepare_liquidator_snapshot
     prepare_hedger_snapshot fetch_binance_income_histories
     prepare_hedger_binance_snapshot_of).
#[local] Abbreviation lag_error' :=
  (lag_error_in_first_pass DB latest block_datetime sync).

(** What [sync_data] leaves behind when it returns, whatever the
    environment. *)
Lemma sync_data_returned fuel (w : World DB) b w' :
  sync_data' fuel w = (Returned b, w') ->
  lastSnapshotBlock (session_config w') = lastSnapshotBlock (session_config w) /\
  lastSyncBlock (session_config w') = Some (number b) /\
  committed_config w' = session_config w' /\
  SNAPSHOT_BLOCK_LAG <= snapshotBlockLag (session_config w') /\
  invoked w' = invoked w /\
  db w' = db w.
Proof.
  revert w. induction fuel as [|fuel IH]; intros w; [discriminate|].
  rewrite sync_data_unfold.
  destruct (latest (head_reads w)) as [e|head]; [discriminate|].
  cbv zeta. set (blk := backward' head _).
  destruct (run_syncs sync sync_order blk (count_head_read w))
    as [r w1] eqn:Hrun.
  destruct (run_syncs_shape sync sync_order blk (count_head_read w))
    as [n Hn].
  rewrite Hrun in Hn. simpl in Hn.
  destruct (record_syncs_fields (take n sync_order) blk (count_head_read w))
    as (H1 & H2 & H3 & H4 & H5 & H6 & H7).
  rewrite <- Hn in *. clear Hn.
  destruct r as [msg|].
  - destruct (ErrorText.contains _ msg); [|discriminate].
    destruct (ErrorText.re_search msg) as [N|]; [|discriminate].
    destruct (latest (head_reads w1)) as [e|head']; [discriminate|].
    intros Hrec. apply IH in Hrec as (A1 & A2 & A3 & A4 & A5 & A6).
    cbn [commit upsert count_head_read session_config invoked db
         set_snapshotBlockLag lastSnapshotBlock] in *.
    unfold load_config in *. rewrite H3, H6, H7 in *.
    repeat split; assumption.
  - intros [= <- <-].
    cbn [commit upsert count_head_read session_config committed_config
         invoked db set_snapshotBlockLag set_lastSyncBlock lastSnapshotBlock
         lastSyncBlock snapshotBlockLag].
    unfold load_config. rewrite H6, H7.
    repeat split; try reflexivity. lia.
Qed.

Variable indexed : nat -> Z.

#[local] Abbreviation settled' :=
  (settled SNAPSHOT_BLOCK_LAG DB latest indexed).

(** A run of [sync_data] that returns, in an environment where the chain
    advances and the indexer is honest: the cursor stays consistent,
    [lastSyncBlock] does not decrease, and the lag does not grow unless the
    first pass met a lag error. *)
Lemma sync_data_settled fuel (w : World DB) b w' :
  chain_advances latest ->
  honest_indexer sync indexed ->
  0 <= SNAPSHOT_BLOCK_LAG_STEP ->
  settled' w ->
  sync_data' fuel w = (Returned b, w') ->
  settled' w' /\
  cursor_le (lastSyncBlock (session_config w))
            (lastSyncBlock (session_config w')) /\
  (snapshotBlockLag (session_config w') <= snapshotBlockLag (session_config w)
   \/ lag_error' w) /\
  (head_reads w <= head_reads w')%nat /\
  (sync_calls w <= sync_calls w')%nat.
Proof.
  intros Hchain (Hmono & Hserved & Hlagging) Hstep.
  revert w. induction fuel as [|fuel IH]; intros w Hsettled; [discriminate|].
  rewrite sync_data_unfold.
  destruct (latest (head_reads w)) as [e|head] eqn:Hhead; [discriminate|].
  cbv zeta. unfold load_config.
  set (lag := snapshotBlockLag (session_config w)).
  set (blk := backward' head lag).
  destruct (run_syncs sync sync_order blk (count_head_read w))
    as [r w1] eqn:Hrun.
  apply run_syncs_inv in Hrun.
  destruct Hsettled as [Hfloor Hsync].
  fold lag in Hfloor.
  destruct r as [msg|].
  - (* a call raised *)
    destruct Hrun as (i & e & Hi & Hraise & Hw1).
    destruct (record_syncs_fields (take (S i) sync_order) blk
                (count_head_read w)) as (F1 & F2 & F3 & F4 & F5 & F6 & F7).
    rewrite <- Hw1 in F1, F2, F3, F4, F5, F6, F7.
    cbn [count_head_read head_reads sync_calls session_config] in F1, F2, F3.
    assert (Hlen : length (take (S i) sync_order) = S i).
    { apply length_take_le. apply lookup_lt_Some in Hi. lia. }
    rewrite Hlen in F2.
    destruct (ErrorText.contains ErrorText.lag_marker msg) eqn:Hmark;
      [|discriminate].
    destruct (ErrorText.re_search msg) as [N|] eqn:Hparse; [|discriminate].
    destruct (latest (head_reads w1)) as [e'|head'] eqn:Hhead';
      [discriminate|].
    cbn [count_head_read sync_calls] in Hraise.
    destruct (Hlagging _ _ _ _ _ Hraise Hmark Hparse) as [HN Hbeyond].
    assert (Hadv : head <= head').
    { eapply (Hchain (head_reads w) (head_reads w1)); eauto. lia. }
    set (w2 := commit (upsert _ (count_head_read w1))).
    assert (Hsettled2 : settled' w2).
    { split.
      - cbn. simpl in Hbeyond. fold lag in Hbeyond. lia.
      - intros s Hs. cbn in Hs. rewrite F3 in Hs.
        destruct (Hsync s Hs) as [Hreached Hheads].
        cbn [w2 commit upsert count_head_read sync_calls head_reads
             session_config set_snapshotBlockLag snapshotBlockLag].
        rewrite F1, F2. split.
        + etransitivity; [exact Hreached|]. apply Hmono. lia.
        + intros k h Hk Hh.
          assert (head' <= h).
          { eapply (Hchain (head_reads w1) k); eauto. lia. }
          assert (s <= N).
          { rewrite HN. etransitivity; [exact Hreached|]. apply Hmono. lia. }
          lia. }
    intros Hrec.
    destruct (IH w2 Hsettled2 Hrec) as (S1 & S2 & _ & S4 & S5).
    cbn [w2 commit upsert count_head_read sync_calls head_reads
         session_config set_snapshotBlockLag lastSyncBlock] in S2, S4, S5.
    rewrite F3 in S2. rewrite F1 in S4. rewrite F2 in S5.
    split; [exact S1|]. split; [exact S2|]. split; [|split; lia].
    right. exists head, i, e, msg. repeat split; assumption.
  - (* all seven calls returned *)
    destruct Hrun as [Hw1 Hok].
    destruct (record_syncs_fields sync_order blk (count_head_read w))
      as (F1 & F2 & F3 & F4 & F5 & F6 & F7).
    rewrite <- Hw1 in F1, F2, F3, F4, F5, F6, F7.
    cbn [count_head_read head_reads sync_calls session_config] in F1, F2, F3.
    intros [= <- <-]. unfold settled.
    cbn [commit upsert sync_calls head_reads session_config
         set_snapshotBlockLag set_lastSyncBlock snapshotBlockLag
         lastSyncBlock]. fold lag.
    rewrite F1, F2.
    pose proof (Hok 0%nat User eq_refl) as Huser.
    cbn [count_head_read sync_calls] in Huser.
    apply Hserved in Huser. simpl in Huser.
    split; [split|].
    + lia.
    + intros s [= <-]. split.
      * simpl. etransitivity; [exact Huser|]. apply Hmono. lia.
      * intros k h Hk Hh. simpl.
        assert (head <= h).
        { eapply (Hchain (head_reads w) k); eauto. lia. }
        lia.
    + split; [|split; [left; lia|split; simpl; lia]].
      destruct (lastSyncBlock (session_config w)) as [s|] eqn:Hs;
        [|exact I].
      simpl. destruct (Hsync s eq_refl) as [_ Hheads].
      specialize (Hheads (head_reads w) head (Nat.le_refl _) Hhead).
      fold lag in Hheads. lia.
Qed.

Lemma cursor_le_trans a b c : cursor_le a b -> cursor_le b c -> cursor_le a c.
Proof. destruct a, b, c; simpl; try tauto; lia. Qed.

Lemma cursor_le_refl a : cursor_le a a.
Proof. destruct a; simpl; [lia|exact I]. Qed.

(** The two stages of a run that returns. *)
Lemma fetch_snapshot_returned get_snapshot fuel (w w' : World DB) :
  fetch_snapshot' get_snapshot fuel w = (Returned tt, w') ->
  exists b w1,
    sync_data' fuel w = (Returned b, w1) /\
    if get_snapshot then do_fetch_snapshot' b w1 = (Returned tt, w')
    else w' = w1.
Proof.
  unfold fetch_snapshot. intros Hrun.
  apply bind_returned in Hrun as (b & w1 & Hsync & Hrest).
  exists b, w1. split; [exact Hsync|].
  destruct get_snapshot; [exact Hrest|].
  now injection Hrest as <-.
Qed.

(** One successful run from a consistent cursor. *)
Lemma successful_run_settled (w w' : World DB) :
  chain_advances latest ->
  honest_indexer sync indexed ->
  0 <= SNAPSHOT_BLOCK_LAG_STEP ->
  settled' w ->
  successful_run' w w' ->
  settled' w' /\
  cursor_le (lastSyncBlock (session_config w))
            (lastSyncBlock (session_config w')) /\
  (forall n, lastSnapshotBlock (session_config w) = Some n -> 0 < n ->
             exists n', lastSnapshotBlock (session_config w') = Some n' /\
                        n <= n') /\
  (snapshotBlockLag (session_config w') <= snapshotBlockLag (session_config w)
   \/ lag_error' w).
Proof.
  intros Hchain Hhonest Hstep Hsettled (get_snapshot & fuel & Hrun).
  apply fetch_snapshot_returned in Hrun as (b & w1 & Hsync & Hrest).
  destruct (sync_data_settled fuel w b w1 Hchain Hhonest Hstep Hsettled Hsync)
    as (S1 & S2 & S3 & _ & _).
  destruct (sync_data_returned fuel w b w1 Hsync) as (R1 & _).
  destruct get_snapshot.
  - apply do_fetch_snapshot_returned in Hrest
      as (Hfresh & Hcfg & _ & Hreads & Hcalls & _).
    assert (Hlag : snapshotBlockLag (session_config w')
                   = snapshotBlockLag (session_config w1))
      by now rewrite Hcfg.
    assert (Hlast : lastSyncBlock (session_config w')
                    = lastSyncBlock (session_config w1))
      by now rewrite Hcfg.
    split.
    { destruct S1 as [Hfloor Hcursor]. split; [now rewrite Hlag|].
      intros s Hs. rewrite Hlast in Hs. rewrite Hlag, Hreads, Hcalls.
      now apply Hcursor. }
    split; [now rewrite Hlast|]. split; [|now rewrite Hlag].
    intros n Hn Hpos. exists (number b). rewrite Hcfg. split; [reflexivity|].
    unfold stale, truthy, load_config in Hfresh. rewrite R1, Hn in Hfresh.
    apply andb_false_iff in Hfresh as [Hzero|Hbelow].
    + apply negb_false_iff, Z.eqb_eq in Hzero. lia.
    + apply Z.leb_gt in Hbelow. lia.
  - subst w'. split; [exact S1|]. split; [exact S2|]. split; [|exact S3].
    intros n Hn Hpos. exists n. rewrite R1. split; [exact Hn|lia].
Qed.


End Monotonicity.



(** ** The block resolver: errors, frame and termination *)

Section BlockResolverEdges.

Variables (SNAPSHOT_BLOCK_LAG SNAPSHOT_BLOCK_LAG_STEP : Z) (DB : Type).
Variables (latest : nat -> string + Z) (block_datetime : Z -> Z).
Variable sync : nat -> Entity -> Block -> option string.

#[local] Abbreviation backward' := (backward block_datetime).
#[local] Abbreviation sync_data' :=
  (sync_data SNAPSHOT_BLOCK_LAG SNAPSHOT_BLOCK_LAG_STEP DB
             latest block_datetime sync).

(** The state a pass leaves when call [i] is the first to raise. *)
Lemma aborted_pass_fields (w : World DB) b i e :
  sync_order !! i = Some e ->
  let w1 := record_syncs (take (S i) sync_order) b (count_head_read w) in
  head_reads w1 = S (head_reads w) /\
  sync_calls w1 = (sync_calls w + S i)%nat /\
  session_config w1 = session_config w /\
  committed_config w1 = committed_config w /\
  sync_log w1
  = sync_log w ++ map (fun e => (e, number b)) (take (S i) sync_order) /\
  invoked w1 = invoked w /\
  db w1 = db w.
Proof.
  intros Hi w1.
  destruct (record_syncs_fields (take (S i) sync_order) b (count_head_read w))
    as (F1 & F2 & F3 & F4 & F5 & F6 & F7).
  assert (Hlen : length (take (S i) sync_order) = S i).
  { apply length_take_le. apply lookup_lt_Some in Hi. lia. }
  rewrite Hlen in F2. repeat split; assumption.
Qed.

(** X1.  An exception without the lag marker is raised again as it is: no
    further chain read, no change to the configuration row, and the log
    shows the calls up to the one that raised. *)
Theorem sync_data_other_error fuel (w : World DB) head i e msg :
  latest (head_reads w) = inr head ->
  sync_order !! i = Some e ->
  (forall j e', (j < i)%nat -> sync_order !! j = Some e' ->
     sync (sync_calls w + j)%nat e'
          (backward' head (snapshotBlockLag (load_config w))) = None) ->
  sync (sync_calls w + i)%nat e
       (backward' head (snapshotBlockLag (load_config w))) = Some msg ->
  ErrorText.contains "only indexed up to block number" msg = false ->
  exists w',
    sync_data' (S fuel) w = (Raised msg, w') /\
    session_config w' = session_config w /\
    committed_config w' = committed_config w /\
    head_reads w' = S (head_reads w) /\
    sync_log w'
    = sync_log w
      ++ map (fun e => (e, head - snapshotBlockLag (load_config w)))
             (take (S i) sync_order).
Proof.
  intros Hhead Hi Hbefore Hraise Hmark.
  set (b := backward' head (snapshotBlockLag (load_config w))) in *.
  destruct (aborted_pass_fields w b i e Hi) as (F1 & _ & F3 & F4 & F5 & _).
  eexists. split.
  - rewrite sync_data_unfold, Hhead. cbv zeta. fold b.
    rewrite (run_syncs_raise sync sync_order b (count_head_read w) i e msg
               Hi Hbefore Hraise).
    change ErrorText.lag_marker with "only indexed up to block number".
    rewrite Hmark. reflexivity.
  - repeat split; assumption.
Qed.

(** X2.  An exception that carries the lag marker but no block number after
    [indexed up to block number ] makes the handler itself fail on
    [re.search(...).group]: no recovery, no change to the configuration. *)
Theorem sync_data_marker_without_number fuel (w : World DB) head i e msg :
  latest (head_reads w) = inr head ->
  sync_order !! i = Some e ->
  (forall j e', (j < i)%nat -> sync_order !! j = Some e' ->
     sync (sync_calls w + j)%nat e'
          (backward' head (snapshotBlockLag (load_config w))) = None) ->
  sync (sync_calls w + i)%nat e
       (backward' head (snapshotBlockLag (load_config w))) = Some msg ->
  ErrorText.contains "only indexed up to block number" msg = true ->
  ErrorText.re_search msg = None ->
  exists w',
    sync_data' (S fuel) w
    = (Raised "'NoneType' object has no attribute 'group'", w') /\
    session_config w' = session_config w /\
    committed_config w' = committed_config w /\
    head_reads w' = S (head_reads w).
Proof.
  intros Hhead Hi Hbefore Hraise Hmark Hparse.
  set (b := backward' head (snapshotBlockLag (load_config w))) in *.
  destruct (aborted_pass_fields w b i e Hi) as (F1 & _ & F3 & F4 & _).
  eexists. split.
  - rewrite sync_data_unfold, Hhead. cbv zeta. fold b.
    rewrite (run_syncs_raise sync sync_order b (count_head_read w) i e msg
               Hi Hbefore Hraise).
    change ErrorText.lag_marker with "only indexed up to block number".
    rewrite Hmark, Hparse. reflexivity.
  - repeat split; assumption.
Qed.

Lemma sync_data_keeps fuel (w : World DB) :
  let r := (sync_data' fuel w).1 in
  let w' := (sync_data' fuel w).2 in
  lastSnapshotBlock (session_config w') = lastSnapshotBlock (session_config w) /\
  invoked w' = invoked w /\
  db w' = db w /\
  ((forall b, r <> Returned b) ->
   lastSyncBlock (session_config w') = lastSyncBlock (session_config w)).
Proof.
  revert w. induction fuel as [|fuel IH]; intros w; [simpl; auto|].
  cbv zeta. rewrite sync_data_unfold.
  destruct (latest (head_reads w)) as [e|head]; [simpl; auto|].
  cbv zeta.
  set (b := backward' head (snapshotBlockLag (load_config w))).
  destruct (run_syncs_shape sync sync_order b (count_head_read w)) as [n Hn].
  destruct (run_syncs sync sync_order b (count_head_read w)) as [r w1].
  simpl in Hn. subst w1.
  destruct (record_syncs_fields (take n sync_order) b (count_head_read w))
    as (F1 & F2 & F3 & F4 & F5 & F6 & F7).
  set (w1 := record_syncs (take n sync_order) b (count_head_read w)) in *.
  cbn [count_head_read session_config invoked db] in F3, F6, F7.
  assert (Hstop : lastSnapshotBlock (session_config w1)
                  = lastSnapshotBlock (session_config w) /\
                  invoked w1 = invoked w /\ db w1 = db w /\
                  lastSyncBlock (session_config w1)
                  = lastSyncBlock (session_config w))
    by (rewrite F3, F6, F7; auto).
  destruct r as [msg|].
  - destruct (ErrorText.contains ErrorText.lag_marker msg);
      [|cbn [fst snd]; tauto].
    destruct (ErrorText.re_search msg) as [N|]; [|cbn [fst snd]; tauto].
    destruct (latest (head_reads w1)) as [e|head'];
      [cbn [fst snd count_head_read session_config invoked db]; tauto|].
    set (w2 := commit (upsert (set_snapshotBlockLag (head' - N)
                                 (load_config w1)) (count_head_read w1))).
    assert (Hw2 : lastSnapshotBlock (session_config w2)
                  = lastSnapshotBlock (session_config w1) /\
                  invoked w2 = invoked w1 /\ db w2 = db w1 /\
                  lastSyncBlock (session_config w2)
                  = lastSyncBlock (session_config w1))
      by (repeat split).
    clearbody w2.
    specialize (IH w2). cbv zeta in IH.
    destruct IH as (I1 & I2 & I3 & I4).
    destruct Hw2 as (W1 & W2 & W3 & W4).
    destruct Hstop as (S1 & S2 & S3 & S4).
    split; [congruence|]. split; [congruence|]. split; [congruence|].
    intros Hnot. rewrite (I4 Hnot). congruence.
  - cbn [fst snd commit upsert session_config invoked db
         set_snapshotBlockLag set_lastSyncBlock lastSnapshotBlock].
    unfold load_config. rewrite F6, F7. repeat split.
    intros Hnot. now destruct (Hnot b).
Qed.

(** X3.  Whatever happens, [sync_data] leaves [lastSnapshotBlock], the reconciler
    log and the rest of the session alone, and only a run that returns moves
    [lastSyncBlock]. *)
Theorem sync_data_frame fuel (w : World DB) :
  let r := (sync_data' fuel w).1 in
  let w' := (sync_data' fuel w).2 in
  lastSnapshotBlock (session_config w') = lastSnapshotBlock (session_config w) /\
  invoked w' = invoked w /\
  db w' = db w /\
  ((forall b, r <> Returned b) ->
   lastSyncBlock (session_config w') = lastSyncBlock (session_config w)).
Proof. apply sync_data_keeps. Qed.

(** The recovery step: a pass whose first raising call reports a lag
    continues as a run from the state with the widened lag committed. *)
Lemma sync_data_recover fuel (w : World DB) head i e msg N head' :
  latest (head_reads w) = inr head ->
  sync_order !! i = Some e ->
  (forall j e', (j < i)%nat -> sync_order !! j = Some e' ->
     sync (sync_calls w + j)%nat e'
          (backward' head (snapshotBlockLag (load_config w))) = None) ->
  sync (sync_calls w + i)%nat e
       (backward' head (snapshotBlockLag (load_config w))) = Some msg ->
  ErrorText.contains ErrorText.lag_marker msg = true ->
  ErrorText.re_search msg = Some N ->
  latest (S (head_reads w)) = inr head' ->
  exists w2,
    sync_data' (S fuel) w = sync_data' fuel w2 /\
    session_config w2 = set_snapshotBlockLag (head' - N) (session_config w) /\
    head_reads w2 = S (S (head_reads w)) /\
    sync_calls w2 = (sync_calls w + S i)%nat.
Proof.
  intros Hhead Hi Hbefore Hraise Hmark Hparse Hhead'.
  set (b := backward' head (snapshotBlockLag (load_config w))) in *.
  destruct (aborted_pass_fields w b i e Hi) as (F1 & F2 & F3 & _).
  set (w1 := record_syncs (take (S i) sync_order) b (count_head_read w)) in *.
  exists (commit (upsert (set_snapshotBlockLag (head' - N) (load_config w1))
                         (count_head_read w1))).
  split; [|split; [|split]].
  - rewrite sync_data_unfold, Hhead. cbv zeta. fold b.
    rewrite (run_syncs_raise sync sync_order b (count_head_read w) i e msg
               Hi Hbefore Hraise).
    rewrite Hmark, Hparse. fold w1. rewrite F1, Hhead'. reflexivity.
  - unfold load_config. cbn [commit upsert session_config]. now rewrite F3.
  - cbn [commit upsert count_head_read head_reads]. now rewrite F1.
  - cbn [commit upsert count_head_read sync_calls]. exact F2.
Qed.

(** X4.  Termination under a steady chain.  When every read of the chain head
    gives [h] and the indexer, indexed up to [N0], raises the lag error
    exactly for the targets beyond [N0], two passes are enough: [sync_data]
    returns the block [min (h - lag) N0], with at most one recovery. *)
Theorem sync_data_steady_converges fuel (w : World DB) h N0 msg :
  (forall k, latest k = inr h) ->
  (forall k e b,
     sync k e b = if N0 <? number b then Some msg else None) ->
  ErrorText.contains "only indexed up to block number" msg = true ->
  ErrorText.re_search msg = Some N0 ->
  let lag := snapshotBlockLag (load_config w) in
  exists b w',
    sync_data' (S (S fuel)) w = (Returned b, w') /\
    number b = Z.min (h - lag) N0 /\
    lastSyncBlock (committed_config w') = Some (Z.min (h - lag) N0) /\
    snapshotBlockLag (committed_config w')
    = tighten SNAPSHOT_BLOCK_LAG SNAPSHOT_BLOCK_LAG_STEP (Z.max lag (h - N0)) /\
    (head_reads w' <= head_reads w + 3)%nat.
Proof.
  intros Hsteady Hindexer Hmark Hparse lag.
  destruct (Z.ltb_spec N0 (h - lag)) as [Hbeyond|Hwithin].
  - (* the first target is beyond the indexer: one recovery *)
    destruct (sync_data_recover (S fuel) w h 0%nat User msg N0 h)
      as (w2 & Hrun & Hcfg & Hreads & Hcalls); try apply Hsteady;
      try reflexivity; try assumption.
    { intros j e' Hj. lia. }
    { rewrite Hindexer. simpl. fold lag.
      now apply Z.ltb_lt in Hbeyond as ->. }
    pose proof (sync_data_pass_ok SNAPSHOT_BLOCK_LAG SNAPSHOT_BLOCK_LAG_STEP
                  DB latest block_datetime sync fuel w2 h (Hsteady _)) as Hok.
    unfold load_config in Hok. rewrite Hcfg in Hok.
    cbn [set_snapshotBlockLag snapshotBlockLag] in Hok.
    specialize (Hok ltac:(intros k e' _; rewrite Hindexer; simpl;
                          now replace (N0 <? h - (h - N0)) with false
                            by (symmetry; apply Z.ltb_ge; lia))).
    cbv zeta in Hok. rewrite Hrun, Hok.
    eexists _, _. split; [reflexivity|].
    destruct (record_syncs_fields sync_order (backward' h (h - N0))
                (count_head_read w2)) as (F1 & _).
    cbn [commit upsert committed_config session_config set_snapshotBlockLag
         set_lastSyncBlock lastSyncBlock snapshotBlockLag head_reads].
    rewrite F1. cbn [count_head_read head_reads]. rewrite Hreads.
    simpl. repeat split; try (f_equal; lia); lia.
  - (* the first target is already indexed: no recovery *)
    pose proof (sync_data_pass_ok SNAPSHOT_BLOCK_LAG SNAPSHOT_BLOCK_LAG_STEP
                  DB latest block_datetime sync (S fuel) w h (Hsteady _)) as Hok.
    specialize (Hok ltac:(intros k e' _; rewrite Hindexer; simpl; fold lag;
                          now apply Z.ltb_ge in Hwithin as ->)).
    cbv zeta in Hok. fold lag in Hok. rewrite Hok.
    eexists _, _. split; [reflexivity|].
    destruct (record_syncs_fields sync_order (backward' h lag)
                (count_head_read w)) as (F1 & _).
    cbn [commit upsert committed_config session_config set_snapshotBlockLag
         set_lastSyncBlock lastSyncBlock snapshotBlockLag head_reads].
    rewrite F1. cbn [count_head_read head_reads].
    simpl. repeat split; try (f_equal; lia); lia.
Qed.


End BlockResolverEdges.

(** ** The snapshot orchestrator: order, failure and switches *)

Lemma flat_map_unit {A B} (f : A -> B) (xs : list A) :
  flat_map (fun x => [f x]) xs = map f xs.
Proof. induction xs as [|x xs IH]; simpl; [reflexivity|now rewrite IH]. Qed.

Lemma logs_ret {DB A} (a : A) : logs (ret a : M DB A) [].
Proof.
  intros w r w' [= <- <-]. exists []. rewrite app_nil_r.
  split; [reflexivity|]. split; [reflexivity|]. intros; reflexivity.
Qed.

Lemma logs_bind {DB A B} (m : M DB A) (k : A -> M DB B) l1 l2 :
  logs m l1 -> (forall a, logs (k a) l2) -> logs (bind m k) (l1 ++ l2).
Proof.
  intros Hm Hk w r w'. unfold bind.
  destruct (m w) as [[a|e|] w1] eqn:Hmw; intros Hrun.
  - destruct (Hm _ _ _ Hmw) as (d1 & Hd1 & _ & Hfull).
    rewrite (Hfull a eq_refl) in Hd1.
    destruct (Hk a _ _ _ Hrun) as (d2 & Hd2 & Hpre & Hfull2).
    exists (l1 ++ d2). rewrite Hd2, Hd1, <- app_assoc.
    split; [reflexivity|]. split; [now apply prefix_app|].
    intros b Hb. now rewrite (Hfull2 b Hb).
  - injection Hrun as <- <-.
    destruct (Hm _ _ _ Hmw) as (d1 & Hd1 & Hpre & _).
    exists d1. split; [exact Hd1|]. split; [now apply prefix_app_r|].
    intros b Hb. discriminate.
  - injection Hrun as <- <-.
    destruct (Hm _ _ _ Hmw) as (d1 & Hd1 & Hpre & _).
    exists d1. split; [exact Hd1|]. split; [now apply prefix_app_r|].
    intros b Hb. discriminate.
Qed.

Lemma logs_invoke {DB} i (f : DB -> outcome unit * DB) : logs (invoke i f) [i].
Proof.
  intros w r w'. unfold invoke. destruct (f (db w)) as [r0 d].
  intros [= <- <-]. exists [i].
  split; [reflexivity|]. split; [reflexivity|]. intros; reflexivity.
Qed.

Lemma logs_for_each {DB A} (xs : list A) (body : A -> M DB unit) f :
  (forall x, logs (body x) (f x)) -> logs (for_each xs body) (flat_map f xs).
Proof.
  intros Hbody. induction xs as [|x xs IH]; simpl.
  - apply logs_ret.
  - apply logs_bind; [apply Hbody|intros _; exact IH].
Qed.

Lemma returns_bind {S A B} (m : Run S A) (k : A -> Run S B) :
  returns m -> (forall a, returns (k a)) -> returns (bind m k).
Proof.
  intros Hm Hk s. destruct (Hm s) as (a & s1 & Hms).
  destruct (Hk a s1) as (b & s2 & Hks).
  exists b, s2. unfold bind. now rewrite Hms.
Qed.

Lemma returns_ret {S A} (a : A) : returns (ret a : Run S A).
Proof. intros s. now exists a, s. Qed.

Lemma returns_for_each {DB A} (xs : list A) (body : A -> M DB unit) :
  (forall x, returns (body x)) -> returns (for_each xs body).
Proof.
  intros Hbody. induction xs as [|x xs IH]; simpl.
  - apply returns_ret.
  - apply returns_bind; [apply Hbody|intros _; exact IH].
Qed.

Lemma returns_invoke {DB} i (f : DB -> outcome unit * DB) :
  (forall d, exists d', f d = (Returned tt, d')) -> returns (invoke i f).
Proof.
  intros Hf w. destruct (Hf (db w)) as [d' Hd].
  unfold invoke. rewrite Hd. now eexists _, _.
Qed.

Section OrchestratorEdges.

Variables (CHAIN_ONLY : bool) (DB : Type).
Variable latest : nat -> string + Z.
Variables (affiliates liquidators : list string) (hedgers : list HedgerContext).
Variable prepare_affiliate_snapshot :
  string -> HedgerContext -> Block -> DB -> outcome unit * DB.
Variable prepare_liquidator_snapshot :
  string -> Block -> DB -> outcome unit * DB.
Variable prepare_hedger_snapshot :
  HedgerContext -> Block -> DB -> outcome unit * DB.
Variable fetch_binance_income_histories :
  HedgerContext -> DB -> outcome unit * DB.
Variable prepare_hedger_binance_snapshot_of :
  HedgerContext -> Block -> DB -> outcome unit * DB.

#[local] Abbreviation do_fetch_snapshot' :=
  (do_fetch_snapshot CHAIN_ONLY DB latest affiliates liquidators hedgers
     prepare_affiliate_snapshot prepare_liquidator_snapshot
     prepare_hedger_snapshot fetch_binance_income_histories
     prepare_hedger_binance_snapshot_of).
#[local] Abbreviation snapshot_invocations' :=
  (snapshot_invocations CHAIN_ONLY affiliates liquidators hedgers).

#[local] Abbreviation reconcile_all' :=
  (reconcile_all CHAIN_ONLY DB affiliates liquidators hedgers
     prepare_affiliate_snapshot prepare_liquidator_snapshot
     prepare_hedger_snapshot fetch_binance_income_histories
     prepare_hedger_binance_snapshot_of).

Lemma logs_reconcile_all b : logs (reconcile_all' b) (snapshot_invocations' b).
Proof.
  unfold reconcile_all, snapshot_invocations.
  apply logs_bind; [|intros _; apply logs_bind].
  - apply logs_for_each. intros a.
    rewrite <- (flat_map_unit
                  (fun h => AffiliateSnapshotOf a (hedger_name h) b)).
    apply logs_for_each. intros h. apply logs_invoke.
  - rewrite <- (flat_map_unit (fun l => LiquidatorSnapshotOf l b)).
    apply logs_for_each. intros l. apply logs_invoke.
  - intros _. apply logs_for_each. intros h.
    unfold hedger_pass, hedger_invocations.
    change (HedgerSnapshotOf (hedger_name h) b :: ?l)
      with ([HedgerSnapshotOf (hedger_name h) b] ++ l).
    apply logs_bind; [apply logs_invoke|intros _].
    destruct (negb CHAIN_ONLY && has_binance_keys h).
    + change [BinanceIncomeHistoriesOf (hedger_name h);
              HedgerBinanceSnapshotOf (hedger_name h) b]
        with ([BinanceIncomeHistoriesOf (hedger_name h)]
              ++ [HedgerBinanceSnapshotOf (hedger_name h) b]).
      apply logs_bind; [apply logs_invoke|intros _; apply logs_invoke].
    + apply logs_ret.
Qed.

(** With a cursor that is not stale, [do_fetch_snapshot] is the three loops
    followed by the write of the cursor. *)
Lemma do_fetch_snapshot_fresh b (w : World DB) :
  stale (load_config w) b = false ->
  do_fetch_snapshot' b w
  = bind (reconcile_all' b)
         (fun _ w' =>
            (Returned tt,
             commit (upsert (set_lastSnapshotBlock (number b) (load_config w))
                            w'))) w.
Proof.
  intros Hfresh. unfold do_fetch_snapshot. rewrite Hfresh.
  unfold reconcile_all. cbv [bind ret].
  destruct (for_each affiliates _ w) as [[u1|e1|] w1]; [|reflexivity..].
  destruct (for_each liquidators _ w1) as [[u2|e2|] w2]; [|reflexivity..].
  destruct (for_each hedgers _ w2) as [[u3|e3|] w3]; reflexivity.
Qed.

Lemma keeps_reconcile_all b : keeps_cursors (reconcile_all' b).
Proof.
  unfold reconcile_all.
  apply keeps_bind; [|intros _; apply keeps_bind].
  - apply keeps_for_each. intros a. apply keeps_for_each. intros h.
    apply keeps_invoke.
  - apply keeps_for_each. intros l. apply keeps_invoke.
  - intros _. apply keeps_for_each. intros h. apply keeps_hedger_pass.
Qed.

Lemma do_fetch_snapshot_logs b :
  logs (do_fetch_snapshot' b) (snapshot_invocations' b).
Proof.
  intros w r w' Hrun.
  destruct (stale (load_config w) b) eqn:Hstale.
  - destruct (do_fetch_snapshot_when_stale CHAIN_ONLY DB latest affiliates
                liquidators hedgers prepare_affiliate_snapshot
                prepare_liquidator_snapshot prepare_hedger_snapshot
                fetch_binance_income_histories
                prepare_hedger_binance_snapshot_of b w Hstale) as [e He].
    rewrite He in Hrun. injection Hrun as <- <-.
    exists []. rewrite app_nil_r. split; [reflexivity|].
    split; [apply prefix_nil|]. intros a Ha. discriminate.
  - rewrite (do_fetch_snapshot_fresh b w Hstale) in Hrun.
    unfold bind in Hrun.
    destruct (reconcile_all' b w) as [[u|e|] w1] eqn:Hloops;
      destruct (logs_reconcile_all b _ _ _ Hloops)
        as (done & Hdone & Hpre & Hfull);
      injection Hrun as <- <-.
    + exists done. split; [exact Hdone|]. split; [exact Hpre|].
      intros _ _. now apply (Hfull u).
    + exists done. split; [exact Hdone|]. split; [exact Hpre|].
      intros a Ha. discriminate.
    + exists done. split; [exact Hdone|]. split; [exact Hpre|].
      intros a Ha. discriminate.
Qed.

(** X6.  The reconcilers are invoked in the order of the three loops, affiliates
    by hedger, then liquidators, then for each hedger its snapshot, the
    income refresh and the exchange snapshot; a pass that does not return
    has invoked a prefix of that list, a pass that returns all of it. *)
Theorem do_fetch_snapshot_order b (w : World DB) :
  let r := (do_fetch_snapshot' b w).1 in
  let w' := (do_fetch_snapshot' b w).2 in
  exists done,
    invoked w' = invoked w ++ done /\
    done `prefix_of` snapshot_invocations' b /\
    (r = Returned tt -> done = snapshot_invocations' b).
Proof.
  cbv zeta. destruct (do_fetch_snapshot' b w) as [r w'] eqn:Hrun.
  destruct (do_fetch_snapshot_logs b w r w' Hrun) as (done & H1 & H2 & H3).
  exists done. split; [exact H1|]. split; [exact H2|].
  intros Hr. now apply (H3 tt).
Qed.

(** X7.  A pass that does not return leaves the configuration row as it was, in
    the session and as committed: [lastSnapshotBlock] is written only after
    every reconciler has returned. *)
Theorem do_fetch_snapshot_failure_keeps_cursor b (w : World DB) r w' :
  do_fetch_snapshot' b w = (r, w') ->
  r <> Returned tt ->
  session_config w' = session_config w /\
  committed_config w' = committed_config w.
Proof.
  intros Hrun Hfail.
  destruct (stale (load_config w) b) eqn:Hstale.
  - destruct (do_fetch_snapshot_when_stale CHAIN_ONLY DB latest affiliates
                liquidators hedgers prepare_affiliate_snapshot
                prepare_liquidator_snapshot prepare_hedger_snapshot
                fetch_binance_income_histories
                prepare_hedger_binance_snapshot_of b w Hstale) as [e He].
    rewrite He in Hrun. injection Hrun as <- <-. split; reflexivity.
  - rewrite (do_fetch_snapshot_fresh b w Hstale) in Hrun.
    unfold bind in Hrun.
    destruct (reconcile_all' b w) as [[u|e|] w1] eqn:Hloops;
      pose proof (keeps_reconcile_all b _ _ _ Hloops)
        as (_ & _ & Hsession & Hcommitted & _);
      injection Hrun as <- <-.
    + now destruct Hfail.
    + split; assumption.
    + split; assumption.
Qed.

(** X8.  In chain-only mode, or when no hedger has exchange keys, neither the
    income refresh nor the exchange reconciler is ever invoked. *)
Theorem do_fetch_snapshot_without_exchange b (w : World DB) :
  CHAIN_ONLY = true \/ Forall (fun h => has_binance_keys h = false) hedgers ->
  exists done,
    invoked (do_fetch_snapshot' b w).2 = invoked w ++ done /\
    Forall (fun i => is_binance i = false) done.
Proof.
  intros Hoff.
  destruct (do_fetch_snapshot' b w) as [r w'] eqn:Hrun.
  destruct (do_fetch_snapshot_logs b w r w' Hrun)
    as (done & Hdone & [rest Hrest] & _).
  exists done. split; [exact Hdone|].
  assert (Hall : Forall (fun i => is_binance i = false)
                        (snapshot_invocations' b)).
  { unfold snapshot_invocations. rewrite !Forall_app. repeat split.
    - apply Forall_flat_map, Forall_forall. intros a _.
      apply Forall_map, Forall_forall. intros h _. reflexivity.
    - apply Forall_map, Forall_forall. intros l _. reflexivity.
    - apply Forall_flat_map, Forall_forall. intros h Hh.
      unfold hedger_invocations. constructor; [reflexivity|].
      assert (Hskip : negb CHAIN_ONLY && has_binance_keys h = false).
      { destruct Hoff as [->|Hkeys]; [reflexivity|].
        rewrite Forall_forall in Hkeys. rewrite (Hkeys h Hh).
        apply andb_false_r. }
      rewrite Hskip. constructor. }
  rewrite Hrest in Hall. now apply Forall_app in Hall as [Hdone' _].
Qed.

(** X9.  When the cursor is not stale and every reconciler returns, the pass
    returns, has made every invocation, and has committed
    [lastSnapshotBlock = snapshot_block.number]. *)
Theorem do_fetch_snapshot_completes b (w : World DB) :
  stale (load_config w) b = false ->
  (forall a h d, exists d',
     prepare_affiliate_snapshot a h b d = (Returned tt, d')) ->
  (forall l d, exists d',
     prepare_liquidator_snapshot l b d = (Returned tt, d')) ->
  (forall h d, exists d', prepare_hedger_snapshot h b d = (Returned tt, d')) ->
  (forall h d, exists d',
     fetch_binance_income_histories h d = (Returned tt, d')) ->
  (forall h d, exists d',
     prepare_hedger_binance_snapshot_of h b d = (Returned tt, d')) ->
  exists w',
    do_fetch_snapshot' b w = (Returned tt, w') /\
    invoked w' = invoked w ++ snapshot_invocations' b /\
    session_config w' = set_lastSnapshotBlock (number b) (session_config w) /\
    committed_config w' = session_config w'.
Proof.
  intros Hfresh Haff Hliq Hhed Hinc Hbin.
  assert (Hall : returns (reconcile_all' b)).
  { unfold reconcile_all.
    apply returns_bind; [|intros _; apply returns_bind].
    - apply returns_for_each. intros a. apply returns_for_each. intros h.
      apply returns_invoke, Haff.
    - apply returns_for_each. intros l. apply returns_invoke, Hliq.
    - intros _. apply returns_for_each. intros h. unfold hedger_pass.
      apply returns_bind; [apply returns_invoke, Hhed|intros _].
      destruct (negb CHAIN_ONLY && has_binance_keys h); [|apply returns_ret].
      apply returns_bind; [apply returns_invoke, Hinc|intros _].
      apply returns_invoke, Hbin. }
  destruct (Hall w) as ([] & w1 & Hloops).
  destruct (logs_reconcile_all b _ _ _ Hloops) as (done & Hdone & _ & Hfull).
  rewrite (Hfull tt eq_refl) in Hdone.
  destruct (keeps_reconcile_all b _ _ _ Hloops) as (_ & _ & Hsession & _).
  eexists. split.
  - rewrite (do_fetch_snapshot_fresh b w Hfresh). unfold bind.
    rewrite Hloops. reflexivity.
  - cbn [commit upsert invoked session_config committed_config].
    split; [exact Hdone|]. split; reflexivity.
Qed.

End OrchestratorEdges.

(** ** One pipeline run *)

Section FetchSnapshotEdges.

Variables (SNAPSHOT_BLOCK_LAG SNAPSHOT_BLOCK_LAG_STEP : Z).
Variables (CHAIN_ONLY : bool) (DB : Type).
Variables (latest : nat -> string + Z) (block_datetime : Z -> Z).
Variable sync : nat -> Entity -> Block -> option string.
Variables (affiliates liquidators : list string) (hedgers : list HedgerContext).
Variable prepare_affiliate_snapshot :
  string -> HedgerContext -> Block -> DB -> outcome unit * DB.
Variable prepare_liquidator_snapshot :
  string -> Block -> DB -> outcome unit * DB.
Variable prepare_hedger_snapshot :
  HedgerContext -> Block -> DB -> outcome unit * DB.
Variable fetch_binance_income_histories :
  HedgerContext -> DB -> outcome unit * DB.
Variable prepare_hedger_binance_snapshot_of :
  HedgerContext -> Block -> DB -> outcome unit * DB.

#[local] Abbreviation sync_data' :=
  (sync_data SNAPSHOT_BLOCK_LAG SNAPSHOT_BLOCK_LAG_STEP DB
             latest block_datetime sync).
#[local] Abbreviation fetch_snapshot' :=
  (fetch_snapshot SNAPSHOT_BLOCK_LAG SNAPSHOT_BLOCK_LAG_STEP CHAIN_ONLY DB
     latest block_datetime sync affiliates liquidators hedgers
     prepare_affiliate_snapshot prepare_liquidator_snapshot
     prepare_hedger_snapshot fetch_binance_income_histories
     prepare_hedger_binance_snapshot_of).

(** X10.  After a run that synchronised and took snapshots, the two cursors
    agree: the snapshots were taken at the block the synchronisation
    stopped at, and both are committed. *)
Theorem fetch_snapshot_cursors_agree fuel (w w' : World DB) :
  fetch_snapshot' true fuel w = (Returned tt, w') ->
  exists n,
    lastSyncBlock (committed_config w') = Some n /\
    lastSnapshotBlock (committed_config w') = Some n /\
    session_config w' = committed_config w'.
Proof.
  intros Hrun.
  apply fetch_snapshot_returned in Hrun as (b & w1 & Hsync & Hsnap).
  apply sync_data_returned in Hsync as (_ & Hlast & _).
  apply do_fetch_snapshot_returned in Hsnap as (_ & Hcfg & Hcommitted & _).
  exists (number b). rewrite Hcommitted, Hcfg. simpl.
  split; [exact Hlast|]. split; reflexivity.
Qed.

(** X11.  No reconciler is invoked, and [lastSnapshotBlock] is not touched, in a
    run that was not asked for snapshots or whose synchronisation did not
    return. *)
Theorem fetch_snapshot_sync_only get_snapshot fuel (w : World DB) :
  get_snapshot = false \/ (forall b, (sync_data' fuel w).1 <> Returned b) ->
  let w' := (fetch_snapshot' get_snapshot fuel w).2 in
  invoked w' = invoked w /\
  db w' = db w /\
  lastSnapshotBlock (session_config w') = lastSnapshotBlock (session_config w).
Proof.
  intros Hoff. cbv zeta. unfold fetch_snapshot, bind.
  destruct (sync_data_keeps SNAPSHOT_BLOCK_LAG SNAPSHOT_BLOCK_LAG_STEP DB
              latest block_datetime sync fuel w) as (K1 & K2 & K3 & _).
  destruct (sync_data' fuel w) as [[b|e|] w1] eqn:Hsync;
    cbn [fst snd] in *; try (repeat split; assumption).
  destruct Hoff as [->|Hnot]; [repeat split; assumption|].
  now destruct (Hnot b).
Qed.

End FetchSnapshotEdges.

(** *** Instances *)

(** The [Account] query fails with a connection error at chain head 1050
    and lag 20: the error comes out as it is after three calls. *)
Lemma sync_data_other_error_case :
  let w := Scenario.fresh tt (Scenario.config (Some 900) (Some 900) 20) in
  exists w',
    sync_data Scenario.floor Scenario.step unit Scenario.head_1050
              Scenario.block_datetime Cases.indexer_down 3%nat w
    = (Raised "connection refused", w') /\
    session_config w' = session_config w /\
    committed_config w' = committed_config w /\
    sync_log w' = [(User, 1030); (Symbol, 1030); (Account, 1030)].
Proof.
  intros w.
  destruct (sync_data_other_error Scenario.floor Scenario.step unit
              Scenario.head_1050 Scenario.block_datetime Cases.indexer_down
              2%nat w 1050 2%nat Account "connection refused")
    as (w' & Hrun & Hsession & Hcommitted & _ & Hlog).
  - reflexivity.
  - reflexivity.
  - intros j e' Hj Hlook. destruct j as [|[|j]]; try lia;
      injection Hlook as <-; reflexivity.
  - reflexivity.
  - reflexivity.
  - exists w'. split; [exact Hrun|]. split; [exact Hsession|].
    split; [exact Hcommitted|exact Hlog].
Defined.

(** A lag error without a block number: the handler fails. *)
Lemma sync_data_marker_without_number_case :
  let w := Scenario.fresh tt (Scenario.config (Some 900) (Some 900) 20) in
  exists w',
    sync_data Scenario.floor Scenario.step unit Scenario.head_1050
              Scenario.block_datetime Cases.indexer_garbled 3%nat w
    = (Raised "'NoneType' object has no attribute 'group'", w') /\
    session_config w' = session_config w /\
    committed_config w' = committed_config w.
Proof.
  intros w.
  destruct (sync_data_marker_without_number Scenario.floor Scenario.step unit
              Scenario.head_1050 Scenario.block_datetime Cases.indexer_garbled
              2%nat w 1050 0%nat User
              "has only indexed up to block number unknown")
    as (w' & Hrun & Hsession & Hcommitted & _).
  - reflexivity.
  - reflexivity.
  - intros j e' Hj. lia.
  - reflexivity.
  - reflexivity.
  - reflexivity.
  - exists w'. split; [exact Hrun|]. split; [exact Hsession|exact Hcommitted].
Defined.

(** Chain head 1050, lag 20, indexer at 1000: one recovery, block 1000. *)
Lemma sync_data_steady_converges_case :
  let w := Scenario.fresh tt (Scenario.config (Some 900) (Some 900) 20) in
  exists b w',
    sync_data Scenario.floor Scenario.step unit Scenario.head_1050
              Scenario.block_datetime Scenario.honest_indexer_at_1000 2%nat w
    = (Returned b, w') /\
    number b = 1000 /\
    lastSyncBlock (committed_config w') = Some 1000 /\
    snapshotBlockLag (committed_config w') = 45.
Proof.
  intros w.
  destruct (sync_data_steady_converges Scenario.floor Scenario.step unit
              Scenario.head_1050 Scenario.block_datetime
              Scenario.honest_indexer_at_1000 0%nat w 1050 1000
              Scenario.lag_message)
    as (b & w' & Hrun & Hb & Hsync & Hlag & _).
  - reflexivity.
  - reflexivity.
  - reflexivity.
  - reflexivity.
  - exists b, w'. split; [exact Hrun|]. split; [exact Hb|].
    split; [exact Hsync|exact Hlag].
Defined.


(** The liquidator reconciler raises at block 1000: the affiliate snapshot
    was written, [lastSnapshotBlock] stays at 900. *)
Lemma do_fetch_snapshot_failure_keeps_cursor_case :
  let w := Scenario.fresh 0%nat (Scenario.config (Some 1000) (Some 900) 45) in
  let b := {| number := 1000; datetime := 12000 |} in
  exists w',
    Cases.snapshots_failing b w = (Raised "liquidator unavailable", w') /\
    db w' = 1%nat /\
    lastSnapshotBlock (session_config w') = Some 900 /\
    lastSnapshotBlock (committed_config w') = Some 900.
Proof.
  intros w b.
  destruct (Cases.snapshots_failing b w) as [r w'] eqn:Hrun.
  assert (Hr : r = Raised "liquidator unavailable")
    by (vm_compute in Hrun; now injection Hrun as <- _).
  assert (Hdb : db w' = 1%nat)
    by (vm_compute in Hrun; now injection Hrun as _ <-).
  subst r.
  destruct (do_fetch_snapshot_failure_keeps_cursor false nat
              Scenario.head_1050 ["affiliate"] ["liquidator"]
              [Scenario.hedger] (fun _ _ _ => Scenario.writes_row)
              (fun _ _ => Cases.unavailable) (fun _ _ => Scenario.writes_row)
              (fun _ => Scenario.writes_nothing)
              (fun _ _ => Scenario.writes_row) b w _ w' Hrun)
    as [Hsession Hcommitted]; [discriminate|].
  exists w'. split; [reflexivity|]. split; [exact Hdb|].
  rewrite Hsession, Hcommitted. split; reflexivity.
Defined.

(** In chain-only mode the hedger with exchange keys gets its on-chain
    snapshot only. *)
Lemma do_fetch_snapshot_without_exchange_case :
  let w := Scenario.fresh 0%nat (Scenario.config (Some 1000) (Some 900) 45) in
  let b := {| number := 1000; datetime := 12000 |} in
  exists done,
    invoked (Cases.snapshots_chain_only b w).2 = done /\
    Forall (fun i => is_binance i = false) done /\
    length done = 3%nat.
Proof.
  intros w b.
  destruct (do_fetch_snapshot_without_exchange true nat Scenario.head_1050
              ["affiliate"] ["liquidator"] [Scenario.hedger]
              (fun _ _ _ => Scenario.writes_row)
              (fun _ _ => Scenario.writes_row)
              (fun _ _ => Scenario.writes_row)
              (fun _ => Scenario.writes_nothing)
              (fun _ _ => Scenario.writes_row) b w (or_introl eq_refl))
    as (done & Hdone & Hall).
  exists done. split; [exact Hdone|]. split; [exact Hall|].
  apply (f_equal (@length _)) in Hdone. vm_compute in Hdone.
  symmetry. exact Hdone.
Defined.

(** The tenant of [Scenario] at block 1000 with the cursor at 900: five
    invocations, cursor committed at 1000. *)
Lemma do_fetch_snapshot_completes_case :
  let w := Scenario.fresh 0%nat (Scenario.config (Some 1000) (Some 900) 45) in
  let b := {| number := 1000; datetime := 12000 |} in
  exists w',
    Scenario.snapshots Scenario.head_1050 b w = (Returned tt, w') /\
    length (invoked w') = 5%nat /\
    lastSnapshotBlock (committed_config w') = Some 1000.
Proof.
  intros w b.
  destruct (do_fetch_snapshot_completes false nat Scenario.head_1050
              ["affiliate"] ["liquidator"] [Scenario.hedger]
              (fun _ _ _ => Scenario.writes_row)
              (fun _ _ => Scenario.writes_row)
              (fun _ _ => Scenario.writes_row)
              (fun _ => Scenario.writes_nothing)
              (fun _ _ => Scenario.writes_row) b w)
    as (w' & Hrun & Hlog & Hsession & Hcommitted);
    try reflexivity; try (intros; eexists; reflexivity).
  exists w'. split; [exact Hrun|]. split.
  - rewrite Hlog. reflexivity.
  - rewrite Hcommitted, Hsession. reflexivity.
Defined.

(** The run of [cursors_monotone_scenario]: both cursors end at 1000. *)
Lemma fetch_snapshot_cursors_agree_case :
  let w := Scenario.fresh 0%nat (Scenario.config (Some 900) (Some 900) 20) in
  exists w',
    Scenario.pipeline Scenario.head_1050 Scenario.honest_indexer_at_1000
                      true 2%nat w = (Returned tt, w') /\
    lastSyncBlock (committed_config w') = Some 1000 /\
    lastSnapshotBlock (committed_config w') = Some 1000.
Proof.
  intros w.
  destruct (Scenario.pipeline Scenario.head_1050
              Scenario.honest_indexer_at_1000 true 2%nat w)
    as [[[]|e|] w'] eqn:Hrun; try (vm_compute in Hrun; discriminate).
  exists w'. split; [reflexivity|].
  destruct (fetch_snapshot_cursors_agree Scenario.floor Scenario.step false
              nat Scenario.head_1050 Scenario.block_datetime
              Scenario.honest_indexer_at_1000
              ["affiliate"] ["liquidator"] [Scenario.hedger]
              (fun _ _ _ => Scenario.writes_row)
              (fun _ _ => Scenario.writes_row)
              (fun _ _ => Scenario.writes_row)
              (fun _ => Scenario.writes_nothing)
              (fun _ _ => Scenario.writes_row) 2%nat w w' Hrun)
    as (n & Hsync & Hsnapshot & _).
  assert (Hn : n = 1000).
  { vm_compute in Hrun. injection Hrun as <-. simpl in Hsync.
    now injection Hsync as <-. }
  subst n. split; assumption.
Defined.

(** A run that is not asked for snapshots invokes no reconciler. *)
Lemma fetch_snapshot_sync_only_case :
  let w := Scenario.fresh 0%nat (Scenario.config (Some 900) (Some 900) 20) in
  let w' := (Scenario.pipeline Scenario.head_1050
               Scenario.honest_indexer_at_1000 false 2%nat w).2 in
  invoked w' = [] /\ db w' = 0%nat /\
  lastSnapshotBlock (session_config w') = Some 900.
Proof.
  intros w.
  apply (fetch_snapshot_sync_only Scenario.floor Scenario.step false
           nat Scenario.head_1050 Scenario.block_datetime
           Scenario.honest_indexer_at_1000
           ["affiliate"] ["liquidator"] [Scenario.hedger]
           (fun _ _ _ => Scenario.writes_row)
           (fun _ _ => Scenario.writes_row)
           (fun _ _ => Scenario.writes_row)
           (fun _ => Scenario.writes_nothing)
           (fun _ _ => Scenario.writes_row) false 2%nat w (or_introl eq_refl)).
Defined.

(** ** Further properties of the exchange reconciler *)

(** A [where] clause that keeps negative amounts only sums to at most 0. *)
Lemma sum_amount_nonpositive keep rows :
  (forall r, keep r = true -> (BinanceIncome.amount r <= 0)%Q) ->
  (sum_amount keep rows <= 0)%Q.
Proof.
  intros Hneg. induction rows as [|r rows IH].
  - rewrite sum_amount_nil. apply Qle_refl.
  - rewrite sum_amount_cons. destruct (keep r) eqn:Hkeep.
    + exact (Qplus_le_compat _ 0 _ 0 (Hneg r Hkeep) IH).
    + now rewrite Qplus_0_l.
Qed.

Lemma sum_amount_nonnegative keep rows :
  (forall r, keep r = true -> (0 <= BinanceIncome.amount r)%Q) ->
  (0 <= sum_amount keep rows)%Q.
Proof.
  intros Hpos. induction rows as [|r rows IH].
  - rewrite sum_amount_nil. apply Qle_refl.
  - rewrite sum_amount_cons. destruct (keep r) eqn:Hkeep.
    + exact (Qplus_le_compat 0 _ 0 _ (Hpos r Hkeep) IH).
    + now rewrite Qplus_0_l.
Qed.

(** A where clause that implies another selects the same rows from a table
    and from the rows of the table the other keeps. *)
Lemma filter_narrow {A} (keep wide : A -> bool) (l : list A) :
  (forall a, keep a = true -> wide a = true) ->
  List.filter keep (List.filter wide l) = List.filter keep l.
Proof.
  intros Himp. induction l as [|a l IH]; [reflexivity|]. simpl.
  destruct (wide a) eqn:Hwide; simpl.
  - destruct (keep a); [now rewrite IH|exact IH].
  - destruct (keep a) eqn:Hkeep; [|exact IH].
    rewrite (Himp a Hkeep) in Hwide. discriminate.
Qed.

Lemma sum_amount_narrow keep wide rows1 rows2 :
  (forall r, keep r = true -> wide r = true) ->
  List.filter wide rows1 = List.filter wide rows2 ->
  sum_amount keep rows1 = sum_amount keep rows2.
Proof.
  intros Himp Hsame. unfold sum_amount.
  rewrite <- (filter_narrow keep wide rows1 Himp).
  rewrite <- (filter_narrow keep wide rows2 Himp).
  now rewrite Hsame.
Qed.

Lemma or_zero_eq (x : Q) : (or_zero x == x)%Q.
Proof.
  unfold or_zero. destruct (Qeq_bool x 0) eqn:Hzero; [|reflexivity].
  apply Qeq_bool_iff in Hzero. now rewrite Hzero.
Qed.

(** The calls, reads and divisions of a reconciliation look at nothing in
    the session but the cached summaries. *)
Lemma reads_ret {A} (a : A) : reads_messages_only (ret a : Run Session A).
Proof. intros s1 s2 Hsame. split; [reflexivity|exact Hsame]. Qed.

Lemma reads_raise {A} e : reads_messages_only (raise e : Run Session A).
Proof. intros s1 s2 Hsame. split; [reflexivity|exact Hsame]. Qed.

Lemma reads_bind {A B} (m : Run Session A) (k : A -> Run Session B) :
  reads_messages_only m -> (forall a, reads_messages_only (k a)) ->
  reads_messages_only (bind m k).
Proof.
  intros Hm Hk s1 s2 Hsame. unfold bind.
  destruct (Hm s1 s2 Hsame) as [Hout Hnext].
  destruct (m s1) as [r1 t1], (m s2) as [r2 t2]. simpl in Hout, Hnext.
  subst r2. destruct r1 as [a|e|].
  - apply Hk. exact Hnext.
  - split; [reflexivity|exact Hnext].
  - split; [reflexivity|exact Hnext].
Qed.

Lemma reads_call {A} c (answer : string + A) :
  reads_messages_only (call c answer).
Proof.
  intros s1 s2 Hsame. unfold call.
  destruct answer; (split; [reflexivity|exact Hsame]).
Qed.

Lemma reads_item m key : reads_messages_only (item m key).
Proof.
  unfold item. destruct (StatsBotMessage.content m !! key);
    [apply reads_ret|apply reads_raise].
Qed.

Lemma reads_decimal_div x y : reads_messages_only (decimal_div x y).
Proof.
  unfold decimal_div. destruct (Qeq_bool y 0); [|apply reads_ret].
  destruct (Qeq_bool x 0); apply reads_raise.
Qed.

Lemma reads_next_funding_fee real_time_funding_rate ps acc :
  reads_messages_only (next_funding_fee real_time_funding_rate ps acc).
Proof.
  revert acc. induction ps as [|p ps IH]; intros acc; simpl.
  - apply reads_ret.
  - apply reads_bind; [apply reads_call|]. intros rate. apply IH.
Qed.

Lemma filter_none {A} (keep : A -> bool) (l : list A) :
  Forall (fun a => keep a = false) l -> List.filter keep l = [].
Proof.
  induction 1 as [|a l Ha _ IH]; [reflexivity|]. simpl. now rewrite Ha.
Qed.

Section ReconcilerEdges.

Local Open Scope Q_scope.

Variables (tenant : string) (IGNORE_BINANCE_TRADE_VOLUME : bool).
Variables (is_for_past : Block -> bool) (show_datetime : Z -> string).
Variable futures_account : string + BinanceAccount.
Variable futures_position_information : string + list Position.
Variable real_time_funding_rate : string -> string + Q.
Variable calculate_binance_trade_volume : HedgerContext -> Block -> string + Q.

#[local] Abbreviation prepare' :=
  (prepare_hedger_binance_snapshot tenant IGNORE_BINANCE_TRADE_VOLUME
     is_for_past show_datetime futures_account futures_position_information
     real_time_funding_rate calculate_binance_trade_volume).
#[local] Abbreviation account_metrics' :=
  (account_metrics tenant is_for_past show_datetime futures_account).
#[local] Abbreviation trade_volume' :=
  (trade_volume IGNORE_BINANCE_TRADE_VOLUME calculate_binance_trade_volume).
#[local] Abbreviation binance_next_funding_fee' :=
  (binance_next_funding_fee is_for_past futures_position_information
     real_time_funding_rate).

(** X12.  A reconciliation is all or nothing on the session.  Whatever its
    outcome, the income ledger, the cached summaries and the stored
    snapshots are as before; a reconciliation that returns has added its
    row, and only it, after the rows already pending; one that raises has
    added none.  The log of calls to the outside only grows. *)
Theorem prepare_snapshot_atomic h b s :
  let run :=
    prepare_hedger_binance_snapshot tenant IGNORE_BINANCE_TRADE_VOLUME
      is_for_past show_datetime futures_account futures_position_information
      real_time_funding_rate calculate_binance_trade_volume h b s in
  let r := run.1 in
  let s' := run.2 in
  binance_income s' = binance_income s /\
  stats_bot_message s' = stats_bot_message s /\
  stored s' = stored s /\
  new s' = match r with
           | Returned row => new s ++ [row]
           | _ => new s
           end /\
  api_log s `prefix_of` api_log s'.
Proof.
  cbv zeta. destruct (prepare' h b s) as [r s'] eqn:Hrun.
  exact (prepare_rows _ _ _ _ _ _ _ _ h b s r s' Hrun).
Qed.



Lemma reads_account_metrics h b : reads_messages_only (account_metrics' h b).
Proof.
  unfold account_metrics. destruct (negb (is_for_past b)).
  - unfold live_metrics. apply reads_bind; [apply reads_call|]. intros acct.
    apply reads_bind; [apply reads_decimal_div|]. intros ratio.
    apply reads_ret.
  - intros s1 s2 Hsame. unfold fallback_metrics.
    rewrite <- Hsame.
    destruct (scalar tenant b (stats_bot_message s1)) as [msg|];
      [|now apply reads_raise].
    revert s1 s2 Hsame.
    repeat (apply reads_bind; [apply reads_item|intros ?]).
    apply reads_ret.
Qed.

Lemma reads_trade_volume h b : reads_messages_only (trade_volume' h b).
Proof.
  unfold trade_volume. destruct IGNORE_BINANCE_TRADE_VOLUME;
    [apply reads_ret|].
  apply reads_bind; [apply reads_call|]. intros v. apply reads_ret.
Qed.

Lemma reads_binance_next_funding_fee b :
  reads_messages_only (binance_next_funding_fee' b).
Proof.
  unfold binance_next_funding_fee. destruct (negb (is_for_past b));
    [|apply reads_ret].
  apply reads_bind; [apply reads_call|]. intros ps.
  apply reads_bind; [apply reads_next_funding_fee|]. intros fee.
  apply reads_ret.
Qed.

Lemma transfer_row_visible ty h b r :
  transfer_row tenant ty h b r = true -> visible_row tenant b r = true.
Proof.
  unfold transfer_row, visible_row. intros Hkeep.
  apply andb_prop in Hkeep as [Hkeep _]. apply andb_prop in Hkeep as [Hkeep ->].
  apply andb_prop in Hkeep as [-> _]. reflexivity.
Qed.

Lemma paid_funding_row_visible b r :
  paid_funding_row tenant b r = true -> visible_row tenant b r = true.
Proof.
  unfold paid_funding_row, visible_row. intros Hkeep.
  apply andb_prop in Hkeep as [Hkeep ->]. apply andb_prop in Hkeep as [Hkeep _].
  apply andb_prop in Hkeep as [-> _]. reflexivity.
Qed.

Lemma received_funding_row_visible b r :
  received_funding_row tenant b r = true -> visible_row tenant b r = true.
Proof.
  unfold received_funding_row, visible_row. intros Hkeep.
  apply andb_prop in Hkeep as [Hkeep ->]. apply andb_prop in Hkeep as [Hkeep _].
  apply andb_prop in Hkeep as [-> _]. reflexivity.
Qed.



(** X17.  For a live block, when the account reports a maintenance margin
    between zero and its margin balance, the health ratio of the snapshot
    lies between 0 and 100. *)
Theorem health_ratio_bounds h b s row s' acct :
  prepare' h b s = (Returned row, s') ->
  is_for_past b = false ->
  futures_account = inr acct ->
  0 <= totalMaintMargin acct ->
  totalMaintMargin acct <= totalMarginBalance acct ->
  0 <= HedgerBinanceSnapshot.binance_account_health_ratio row /\
  HedgerBinanceSnapshot.binance_account_health_ratio row <= 100.
Proof.
  intros Hrun Hlive Hacct Hmargin Hcovered.
  apply prepare_returned in Hrun
    as (m & s1 & volume & s2 & next & s3 & Hm & _ & _ & -> & _).
  cbn [assemble HedgerBinanceSnapshot.binance_account_health_ratio].
  unfold account_metrics in Hm. rewrite Hlive in Hm. cbn [negb] in Hm.
  apply live_metrics_returned in Hm
    as (acct' & Hacct' & Hnz & M1 & M2 & M3 & _).
  rewrite Hacct in Hacct'. injection Hacct' as <-.
  rewrite M3, M1, M2.
  assert (Hbalance : 0 < totalMarginBalance acct).
  { destruct (Qlt_le_dec 0 (totalMarginBalance acct)) as [Hlt|Hle];
      [exact Hlt|].
    destruct Hnz. apply Qle_antisym; [exact Hle|].
    now apply Qle_trans with (totalMaintMargin acct). }
  assert (He18 : 0 < e18) by reflexivity.
  assert (Hscaled : 0 < totalMarginBalance acct * e18).
  { rewrite <- (Qmult_0_l e18). now apply Qmult_lt_compat_r. }
  set (q := totalMaintMargin acct * e18 / (totalMarginBalance acct * e18)).
  assert (Hlow : 0 <= q).
  { apply Qle_shift_div_l; [exact Hscaled|]. rewrite Qmult_0_l.
    rewrite <- (Qmult_0_l e18).
    apply Qmult_le_compat_r; [exact Hmargin|now apply Qlt_le_weak]. }
  assert (Hhigh : q <= 1).
  { apply Qle_shift_div_r; [exact Hscaled|]. rewrite Qmult_1_l.
    apply Qmult_le_compat_r; [exact Hcovered|now apply Qlt_le_weak]. }
  clearbody q. unfold Qminus. split; lra.
Qed.

(** X18.  For a live block whose positions all have a zero notional (or
    when there is no position at all), a snapshot that is returned has a
    next funding fee of exactly 0, set and not left out, and no funding rate
    was asked for. *)
Theorem no_open_position h b s row s' ps :
  prepare' h b s = (Returned row, s') ->
  is_for_past b = false ->
  futures_position_information = inr ps ->
  Forall (fun p => notional p == 0) ps ->
  HedgerBinanceSnapshot.binance_next_funding_fee row = Some 0 /\
  api_log s'
  = (api_log s
     ++ FuturesAccount
        :: (if IGNORE_BINANCE_TRADE_VOLUME then [] else [TradeVolume])
     ++ [FuturesPositionInformation])%list.
Proof.
  intros Hrun Hlive Hps Hflat.
  apply prepare_returned in Hrun
    as (m & s1 & volume & s2 & next & s3 & Hm & Hv & Hn & -> & ->).
  cbn [assemble HedgerBinanceSnapshot.binance_next_funding_fee save api_log].
  unfold account_metrics in Hm. rewrite Hlive in Hm. cbn [negb] in Hm.
  apply live_metrics_log in Hm. apply trade_volume_returned in Hv.
  unfold binance_next_funding_fee in Hn.
  rewrite Hlive, Hps in Hn. cbn [negb] in Hn.
  assert (Hnone : List.filter is_open ps = []).
  { apply filter_none. eapply Forall_impl; [exact Hflat|].
    intros p Hp. unfold is_open. apply Qeq_bool_iff in Hp. now rewrite Hp. }
  unfold bind, call in Hn. rewrite Hnone in Hn. simpl in Hn.
  injection Hn as <- <-. split; [reflexivity|].
  cbn [log_call api_log]. rewrite Hv, Hm. cbn [log_call api_log].
  now rewrite <- !app_assoc.
Qed.

End ReconcilerEdges.

(** *** Instances *)





(** A maintenance margin of 10 on a balance of 200. *)
Lemma health_ratio_bounds_case :
  exists row s',
    Scenario.reconcile 200%Q Scenario.live_block
      (Scenario.session Scenario.ledger []) = (Returned row, s') /\
    (0 <= HedgerBinanceSnapshot.binance_account_health_ratio row)%Q /\
    (HedgerBinanceSnapshot.binance_account_health_ratio row <= 100)%Q.
Proof.
  pose (run := Scenario.reconcile 200%Q Scenario.live_block
                 (Scenario.session Scenario.ledger [])).
  assert (Hrun : exists row, run = (Returned row, run.2)).
  { let v := eval vm_compute in run.1 in
    lazymatch v with Returned ?a => exists a end.
    apply returned_inv. vm_compute. reflexivity. }
  destruct Hrun as [row Hrun]. exists row, run.2. split; [exact Hrun|].
  apply (health_ratio_bounds "tenant" false Scenario.is_for_past
           Scenario.show_datetime (inr (Scenario.account 200%Q))
           (inr Scenario.positions) Scenario.funding_rate
           (fun _ _ => inr 7%Q) Scenario.hedger Scenario.live_block
           (Scenario.session Scenario.ledger []) row run.2
           (Scenario.account 200%Q) Hrun eq_refl eq_refl).
  - vm_compute. discriminate.
  - vm_compute. discriminate.
Defined.

(** An account whose only position is closed, at the live block. *)
Lemma no_open_position_case :
  exists row s',
    Cases.reconcile_flat Scenario.live_block
      (Scenario.session Scenario.ledger []) = (Returned row, s') /\
    HedgerBinanceSnapshot.binance_next_funding_fee row = Some 0%Q /\
    api_log s' = [FuturesAccount; TradeVolume; FuturesPositionInformation].
Proof.
  pose (run := Cases.reconcile_flat Scenario.live_block
                 (Scenario.session Scenario.ledger [])).
  assert (Hrun : exists row, run = (Returned row, run.2)).
  { let v := eval vm_compute in run.1 in
    lazymatch v with Returned ?a => exists a end.
    apply returned_inv. vm_compute. reflexivity. }
  destruct Hrun as [row Hrun]. exists row, run.2. split; [exact Hrun|].
  apply (no_open_position "tenant" false Scenario.is_for_past
           Scenario.show_datetime (inr (Scenario.account 200%Q))
           (inr Cases.flat_positions) Scenario.funding_rate
           (fun _ _ => inr 7%Q) Scenario.hedger Scenario.live_block
           (Scenario.session Scenario.ledger []) row run.2
           Cases.flat_positions Hrun eq_refl eq_refl).
  repeat constructor.
Defined.

(** ** The number read from a lag error *)

Lemma strip_prefix_cons a p c s :
  ErrorText.strip_prefix (String a p) (String c s)
  = if Ascii.eqb a c then ErrorText.strip_prefix p s else None.
Proof. reflexivity. Qed.

Lemma append_String c (s t : string) :
  (String c s ++ t)%string = String c (s ++ t).
Proof. reflexivity. Qed.

(** The phrase does not overlap itself: when it starts inside a text that
    is followed by the phrase, it lies within that text. *)
Lemma strip_prefix_overlap (x rest t : string) :
  ErrorText.strip_prefix "indexed up to block number "
    (x ++ "indexed up to block number " ++ rest) = Some t ->
  x = "" \/ String.prefix "indexed up to block number " x = true.
Proof.
  intros H.
  destruct x as [|c x]; [now left|right].
  do 26 (rewrite append_String, strip_prefix_cons in H;
         match type of H with
         | context [Ascii.eqb ?a c] =>
             destruct (Ascii.eqb_spec a c) as [<-|_]; [|discriminate]
         end;
         destruct x as [|c x]; [cbv in H; discriminate|]).
  rewrite append_String, strip_prefix_cons in H.
  match type of H with
  | context [Ascii.eqb ?a c] =>
      destruct (Ascii.eqb_spec a c) as [<-|_]; [|discriminate]
  end.
  destruct x; reflexivity.
Qed.

Lemma match_here_overlap (x rest : string) n :
  ErrorText.match_here (x ++ "indexed up to block number " ++ rest) = Some n ->
  x = "" \/ String.prefix "indexed up to block number " x = true.
Proof.
  unfold ErrorText.match_here. intros H.
  destruct (ErrorText.strip_prefix _ _) as [t|] eqn:Hstrip; [|discriminate].
  exact (strip_prefix_overlap x rest t Hstrip).
Qed.

Lemma re_search_cons c s :
  ErrorText.re_search (String c s)
  = match ErrorText.match_here (String c s) with
    | Some n => Some n
    | None => ErrorText.re_search s
    end.
Proof. reflexivity. Qed.

Lemma re_search_here s n :
  ErrorText.match_here s = Some n -> ErrorText.re_search s = Some n.
Proof.
  intros H. destruct s as [|c s]; [discriminate|].
  now rewrite re_search_cons, H.
Qed.

Lemma re_search_skip (pre rest : string) :
  ErrorText.contains "indexed up to block number " pre = false ->
  ErrorText.re_search (pre ++ "indexed up to block number " ++ rest)
  = ErrorText.re_search ("indexed up to block number " ++ rest).
Proof.
  induction pre as [|c pre IH]; intros Hfree; [reflexivity|].
  change (ErrorText.contains "indexed up to block number " (String c pre))
    with (String.prefix "indexed up to block number " (String c pre)
          || ErrorText.contains "indexed up to block number " pre) in Hfree.
  apply orb_false_elim in Hfree as [Hhere Hlater].
  change (String c pre ++ "indexed up to block number " ++ rest)%string
    with (String c (pre ++ "indexed up to block number " ++ rest)).
  rewrite re_search_cons.
  destruct (ErrorText.match_here _) as [n|] eqn:Hmatch; [|now apply IH].
  change (String c (pre ++ "indexed up to block number " ++ rest))
    with (String c pre ++ "indexed up to block number " ++ rest)%string
    in Hmatch.
  apply match_here_overlap in Hmatch as [Hnil|Hprefix]; [discriminate|].
  congruence.
Qed.

Lemma int_of_digits_app acc (digits post : string) :
  all_digits digits = true -> starts_with_digit post = false ->
  ErrorText.int_of_digits acc (digits ++ post)
  = ErrorText.int_of_digits acc digits.
Proof.
  revert acc. induction digits as [|d digits IH]; intros acc Hall Hpost.
  - destruct post as [|c post]; [reflexivity|]. simpl in *. now rewrite Hpost.
  - simpl in Hall. apply andb_prop in Hall as [Hd Hall].
    simpl. rewrite Hd. now apply IH.
Qed.

(** X19.  The number [re.search] reads from an error text is the one that
    follows the leftmost occurrence of the phrase: whatever precedes the
    phrase (text without the phrase, other numbers included) and whatever
    follows the digits (anything that does not go on with a digit) has no
    effect on it. *)
Theorem re_search_first_number (pre digits post : string) :
  ErrorText.contains "indexed up to block number " pre = false ->
  digits <> "" ->
  all_digits digits = true ->
  starts_with_digit post = false ->
  ErrorText.re_search
    (pre ++ "indexed up to block number " ++ digits ++ post)
  = Some (ErrorText.int_of_digits 0 digits).
Proof.
  intros Hfree Hsome Hall Hpost.
  rewrite (re_search_skip pre (digits ++ post) Hfree).
  apply re_search_here.
  destruct digits as [|d digits]; [now destruct Hsome|].
  pose proof Hall as Hd. simpl in Hd. apply andb_prop in Hd as [Hd _].
  unfold ErrorText.match_here.
  change (ErrorText.strip_prefix "indexed up to block number "
            ("indexed up to block number " ++ String d digits ++ post))
    with (Some (String d (digits ++ post))).
  cbv beta iota. rewrite Hd.
  change (String d (digits ++ post)) with (String d digits ++ post)%string.
  now rewrite (int_of_digits_app 0 (String d digits) post Hall Hpost).
Qed.

(** The text of a subgraph that is 50 blocks behind. *)
Lemma re_search_first_number_case :
  ErrorText.re_search
    ("block 7: has only indexed up to block number 1000 and data for block number 1050 is therefore not yet available")
  = Some 1000.
Proof.
  apply (re_search_first_number "block 7: has only " "1000"
           " and data for block number 1050 is therefore not yet available").
  - reflexivity.
  - discriminate.
  - reflexivity.
  - reflexivity.
Defined.

(** ** Namespaced identifiers *)

Lemma append_empty (s : string) : ("" ++ s)%string = s.
Proof. reflexivity. Qed.

Lemma append_inv_head (t a b : string) :
  (t ++ a = t ++ b)%string -> a = b.
Proof.
  induction t as [|c t IH]; intros Heq; [exact Heq|].
  rewrite !append_String in Heq. injection Heq as Heq. now apply IH.
Qed.

Lemma contains_tail needle c (t : string) :
  ErrorText.contains needle (String c t) = false ->
  String.prefix needle (String c t) = false /\
  ErrorText.contains needle t = false.
Proof.
  intros H.
  change (ErrorText.contains needle (String c t))
    with (String.prefix needle (String c t) || ErrorText.contains needle t)
    in H.
  now apply orb_false_elim in H.
Qed.

Lemma namespaced_inj (t1 t2 a b : string) :
  ErrorText.contains "_" t1 = false ->
  ErrorText.contains "_" t2 = false ->
  (t1 ++ "_" ++ a = t2 ++ "_" ++ b)%string ->
  t1 = t2 /\ a = b.
Proof.
  revert t2. induction t1 as [|c t1 IH]; intros [|c2 t2] H1 H2 Heq;
    rewrite ?append_String, ?append_empty in Heq.
  - injection Heq as <-. split; reflexivity.
  - exfalso. injection Heq as <- _.
    apply contains_tail in H2 as [H2 _]. destruct t2; discriminate.
  - exfalso. injection Heq as -> _.
    apply contains_tail in H1 as [H1 _]. destruct t1; discriminate.
  - injection Heq as <- Heq.
    apply contains_tail in H1 as [_ H1]. apply contains_tail in H2 as [_ H2].
    destruct (IH t2 H1 H2) as [-> ->].
    { now rewrite ?append_String, ?append_empty. }
    split; reflexivity.
Qed.

Section DataLoaderFacts.

Context {Value : Type}.
Variables (format : Value -> string) (str : string -> Value).

(** The text of a [str] object is the string itself. *)
Hypothesis format_str : forall s, format (str s) = s.

#[local] Abbreviation tag_id := (tag_tenant_to_id format str).
#[local] Abbreviation tag_quote := (tag_tenant_quote_id format str).

(** X20.  Namespaced identifiers of different tenants never collide: when
    no tenant name contains an underscore, two tagged entities with the
    same [id] are of the same tenant and had the same [id] before.  Fields
    other than [id] are left as they were. *)
Theorem tag_tenant_to_id_injective t1 t2 d1 d2 d1' d2' :
  ErrorText.contains "_" t1 = false ->
  ErrorText.contains "_" t2 = false ->
  tag_id d1 t1 = Returned d1' ->
  tag_id d2 t2 = Returned d2' ->
  (d1' !! "id" = d2' !! "id" ->
   t1 = t2 /\ format <$> d1 !! "id" = format <$> d2 !! "id") /\
  (forall k, k <> "id" -> d1' !! k = d1 !! k).
Proof.
  intros H1 H2 Htag1 Htag2. unfold tag_tenant_to_id in Htag1, Htag2.
  destruct (d1 !! "id") as [v1|] eqn:Hv1; [|discriminate].
  destruct (d2 !! "id") as [v2|] eqn:Hv2; [|discriminate].
  injection Htag1 as <-. injection Htag2 as <-. split.
  - rewrite !lookup_insert_eq. intros Heq. injection Heq as Heq.
    apply (f_equal format) in Heq. rewrite !format_str in Heq.
    destruct (namespaced_inj _ _ _ _ H1 H2 Heq) as [-> Hids].
    split; [reflexivity|]. simpl. now rewrite Hids.
  - intros k Hk. now rewrite lookup_insert_ne.
Qed.

(** X21.  Namespacing keeps the references between entities of a tenant:
    a trade history points to a quote before tagging exactly when its
    tagged [quote] field is the tagged [id] of that quote. *)
Theorem tagged_quote_reference tenant quote trade quote' trade' :
  tag_id quote tenant = Returned quote' ->
  tag_quote trade tenant = Returned trade' ->
  (format <$> trade !! "quote" = format <$> quote !! "id" <->
   format <$> trade' !! "quote" = format <$> quote' !! "id").
Proof.
  intros Hquote Htrade.
  unfold tag_tenant_to_id in Hquote. unfold tag_tenant_quote_id in Htrade.
  destruct (quote !! "id") as [v|] eqn:Hv; [|discriminate].
  destruct (trade !! "quote") as [u|] eqn:Hu; [|discriminate].
  injection Hquote as <-. injection Htrade as <-.
  rewrite !lookup_insert_eq. simpl. rewrite !format_str. split.
  - intros [= ->]. reflexivity.
  - intros [= Heq]. apply append_inv_head in Heq.
    rewrite !append_String, !append_empty in Heq. injection Heq as Heq.
    now rewrite Heq.
Qed.

End DataLoaderFacts.

(** *** Instances *)

(** Quote 7 of tenant [bsc] and quote 7 of tenant [base]. *)
Lemma tag_tenant_to_id_injective_case :
  let bsc := <["id" := "bsc_7"]> Entities.quote in
  let base := <["id" := "base_7"]> Entities.quote in
  (bsc !! "id" = base !! "id" ->
   "bsc" = "base" /\
   Entities.text <$> Entities.quote !! "id"
   = Entities.text <$> Entities.quote !! "id") /\
  (forall k, k <> "id" -> bsc !! k = Entities.quote !! k).
Proof.
  intros bsc base.
  apply (tag_tenant_to_id_injective Entities.text Entities.text
           (fun s => eq_refl) "bsc" "base" Entities.quote Entities.quote
           bsc base).
  - reflexivity.
  - reflexivity.
  - reflexivity.
  - reflexivity.
Defined.

(** Trade history 19 of tenant [bsc] points to quote 7, before and after. *)
Lemma tagged_quote_reference_case :
  let quote' := <["id" := "bsc_7"]> Entities.quote in
  let trade' := <["quote" := "bsc_7"]> Entities.trade in
  Entities.text <$> Entities.trade !! "quote"
  = Entities.text <$> Entities.quote !! "id" <->
  Entities.text <$> trade' !! "quote" = Entities.text <$> quote' !! "id".
Proof.
  intros quote' trade'.
  apply (tagged_quote_reference Entities.text Entities.text
           (fun s => eq_refl) "bsc" Entities.quote Entities.trade
           quote' trade').
  - reflexivity.
  - reflexivity.
Defined.
